(** * astronomy-apod: the normalizing fetch adapter and the UI state

    A shallow embedding of [app.js] (classes [AppState],
    [AstronomyAPIService], [ControlsComponent], object [AppUtils]) and of the
    configuration profiles of [config.js], with the properties the
    specification states about them.

    Conventions.
    - A JavaScript string is a [string] holding its UTF-8 bytes.
    - A JavaScript number is an IEEE-754 value ([spec_float]).
    - A parsed JSON object is a finite map from its own property names to
      values; reading a property that the object does not own yields the
      member of that name inherited from [Object.prototype] when there is
      one, and [undefined] otherwise.
    - The upstream API answers with a JSON object; a body that does not parse
      makes [response.json()] reject.
    - [fetchPictureData] is modelled as one computation, since nothing of
      the application runs between its [await]s that could change what it
      does; [loadPicture] is modelled both without interruption and, in the
      event loop at the end of the model, split at its [await], where other
      events are handled while a request is in flight. *)

From Stdlib Require Import ZArith NArith Ascii String Floats.SpecFloat.
From stdpp Require Import gmap strings list pretty.

Open Scope string_scope.
Set Warnings "-register-all".

(** ** JavaScript values *)

Module JS.

Inductive value : Type :=
  | VUndefined
  | VNull
  | VBool (b : bool)
  | VNum (x : spec_float)
  | VStr (s : string)
  | VArr (elems : list value)
  | VObj (props : gmap string value)
  | VInherited (member : string).

(** ToBoolean: [undefined], [null], [false], [+0], [-0], [NaN] and the empty
    string are falsy, everything else is truthy. *)
Definition truthy (v : value) : bool :=
  match v with
  | VUndefined | VNull => false
  | VBool b => b
  | VNum (S754_zero _) | VNum S754_nan => false
  | VNum _ => true
  | VStr "" => false
  | VStr _ => true
  | VArr _ | VObj _ | VInherited _ => true
  end.

(** [a || b] *)
Definition or_else (a b : value) : value := if truthy a then a else b.

(** The names that every plain object inherits from [Object.prototype]:
    its methods and, for [__proto__], the prototype itself.  [VInherited k]
    is the inherited member of name [k]. *)
Definition object_prototype : list string :=
  ["constructor"; "__defineGetter__"; "__defineSetter__"; "hasOwnProperty";
   "__lookupGetter__"; "__lookupSetter__"; "isPrototypeOf";
   "propertyIsEnumerable"; "toString"; "valueOf"; "__proto__";
   "toLocaleString"].

(** [o[k]] on a plain object given by its own properties: the own property
    when there is one, else the member inherited from [Object.prototype],
    else [undefined]. *)
Definition get (o : gmap string value) (k : string) : value :=
  match o !! k with
  | Some v => v
  | None => if bool_decide (k ∈ object_prototype) then VInherited k else VUndefined
  end.

End JS.
Import JS.

Infix "|||" := or_else (at level 50, left associativity).

(** ** Configuration (config.js, [AstronomyPictureApp.loadApiConfig]) *)

(** [responseMapping]: the upstream name of each logical field.  An entry that
    the profile leaves out reads as [undefined]. *)
Record ResponseMapping : Type := {
  m_title : option string;
  m_date : option string;
  m_explanation : option string;
  m_url : option string;
  m_hdurl : option string;
  m_mediaType : option string;
  m_copyright : option string
}.

Record Config : Type := {
  baseUrl : string;
  apiKey : string;
  dateParam : string;
  apiKeyParam : string;
  responseMapping : option ResponseMapping
}.

(** ToPropertyKey of a mapping entry: a missing entry is the key
    ["undefined"]. *)
Definition property_key (e : option string) : string :=
  default "undefined" e.

Definition nasa_mapping : ResponseMapping := {|
  m_title := Some "title";
  m_date := Some "date";
  m_explanation := Some "explanation";
  m_url := Some "url";
  m_hdurl := Some "hdurl";
  m_mediaType := Some "media_type";
  m_copyright := Some "copyright"
|}.

Definition custom_mapping : ResponseMapping := {|
  m_title := Some "picture_title";
  m_date := Some "picture_date";
  m_explanation := Some "description";
  m_url := Some "image_url";
  m_hdurl := Some "high_res_url";
  m_mediaType := Some "type";
  m_copyright := Some "credit"
|}.

(** [API_CONFIGS.nasa], which is also [defaultConfig] of [loadApiConfig]. *)
Definition nasa : Config := {|
  baseUrl := "https://api.nasa.gov/planetary/apod";
  apiKey := "DEMO_KEY";
  dateParam := "date";
  apiKeyParam := "api_key";
  responseMapping := Some nasa_mapping
|}.

(** [API_CONFIGS.custom] *)
Definition custom : Config := {|
  baseUrl := "https://your-api.com/astronomy";
  apiKey := "your-api-key-here";
  dateParam := "date";
  apiKeyParam := "key";
  responseMapping := Some custom_mapping
|}.

(** ** [AstronomyAPIService.transformResponse] *)

Definition normalize (mapping : ResponseMapping) (data : gmap string value)
  : gmap string value :=
  {[ "title" := get data (property_key (m_title mapping)) ||| get data "title";
     "date" := get data (property_key (m_date mapping)) ||| get data "date";
     "explanation" :=
       get data (property_key (m_explanation mapping)) ||| get data "explanation";
     "url" := get data (property_key (m_url mapping)) ||| get data "url";
     "hdurl" := get data (property_key (m_hdurl mapping)) ||| get data "hdurl";
     "media_type" :=
       get data (property_key (m_mediaType mapping)) ||| get data "media_type"
       ||| VStr "image";
     "copyright" :=
       get data (property_key (m_copyright mapping)) ||| get data "copyright" ]}.

Definition transformResponse (config : Config) (data : gmap string value)
  : gmap string value :=
  match responseMapping config with
  | None => data
  | Some mapping => normalize mapping data
  end.

(** ** [AstronomyAPIService.buildApiUrl] *)

Module Url.

(** Bytes that the application/x-www-form-urlencoded serializer leaves as they
    are: ASCII letters and digits, and [*], [-], [.], [_]. *)
Definition unreserved (c : ascii) : bool :=
  let n := N_of_ascii c in
  ((48 <=? n) && (n <=? 57) || (65 <=? n) && (n <=? 90)
   || (97 <=? n) && (n <=? 122)
   || (n =? 42) || (n =? 45) || (n =? 46) || (n =? 95))%N.

Definition hex_digit (n : N) : ascii :=
  default "0"%char (String.get (N.to_nat n) "0123456789ABCDEF").

Definition percent_encode (c : ascii) : string :=
  let n := N_of_ascii c in
  String "%" (String (hex_digit (n / 16)) (String (hex_digit (n mod 16)) "")).

Definition encode_byte (c : ascii) : string :=
  if unreserved c then String c ""
  else if Ascii.eqb c " " then "+"
  else percent_encode c.

Fixpoint urlencode (s : string) : string :=
  match s with
  | "" => ""
  | String c s' => encode_byte c +:+ urlencode s'
  end.

(** [URLSearchParams.prototype.toString]: [name=value] tuples joined by [&]. *)
Fixpoint serialize (params : list (string * string)) : string :=
  match params with
  | [] => ""
  | [(n, v)] => urlencode n +:+ "=" +:+ urlencode v
  | (n, v) :: rest => urlencode n +:+ "=" +:+ urlencode v +:+ "&" +:+ serialize rest
  end.

End Url.

(** Object literals with computed string keys, as far as [buildApiUrl] needs
    them: the properties in creation order, and the order in which the own
    keys are enumerated. *)
Module Obj.

Definition digit (c : ascii) : option N :=
  let n := N_of_ascii c in
  if ((48 <=? n) && (n <=? 57))%N then Some (n - 48)%N else None.

Fixpoint parse_digits (acc : N) (s : string) : option N :=
  match s with
  | "" => Some acc
  | String c s' =>
      match digit c with
      | Some d => parse_digits (10 * acc + d)%N s'
      | None => None
      end
  end.

(** An array index is the canonical decimal form of an integer in
    [0, 2^32 - 2]. *)
Definition array_index (k : string) : option N :=
  match k with
  | "" => None
  | _ =>
      match parse_digits 0 k with
      | Some n =>
          if bool_decide (pretty n = k) && (n <? 2 ^ 32 - 1)%N then Some n else None
      | None => None
      end
  end.

Definition props : Type := list (string * string).

(** Defining property [k]: an existing property keeps its place and takes the
    new value, a new one is created last. *)
Fixpoint define (k v : string) (o : props) : props :=
  match o with
  | [] => [(k, v)]
  | (k', v') :: o' =>
      if String.eqb k k' then (k, v) :: o' else (k', v') :: define k v o'
  end.

Fixpoint insert_index (n : N) (e : string * string)
                      (l : list (N * (string * string)))
  : list (N * (string * string)) :=
  match l with
  | [] => [(n, e)]
  | (n', e') :: l' =>
      if (n <? n')%N then (n, e) :: l else (n', e') :: insert_index n e l'
  end.

Fixpoint indexed (o : props) : list (N * (string * string)) :=
  match o with
  | [] => []
  | (k, v) :: o' =>
      match array_index k with
      | Some n => insert_index n (k, v) (indexed o')
      | None => indexed o'
      end
  end.

Fixpoint named (o : props) : props :=
  match o with
  | [] => []
  | (k, v) :: o' =>
      match array_index k with
      | Some _ => named o'
      | None => (k, v) :: named o'
      end
  end.

(** OrdinaryOwnPropertyKeys: array indices in ascending numeric order, then
    the other string keys in creation order. *)
Definition own_entries (o : props) : props :=
  ((snd <$> indexed o) ++ named o)%list.

End Obj.

(** [new URLSearchParams({[dateParam]: date, [apiKeyParam]: apiKey})] *)
Definition query_params (config : Config) (date : string) : list (string * string) :=
  Obj.own_entries
    (Obj.define (apiKeyParam config) (apiKey config)
       (Obj.define (dateParam config) date [])).

Definition buildApiUrl (config : Config) (date : string) : string :=
  baseUrl config +:+ "?" +:+ Url.serialize (query_params config date).

(** ** Errors, HTTP responses and the effects of the adapter *)

(** A thrown [Error] object; only its [message] is ever read. *)
Record Error : Type := { message : string }.

(** What the adapter reads of a [Response]: [status], [statusText] and the
    outcome of [response.json()], which is the parsed JSON object or the error
    raised for a body that does not parse. *)
Record Response : Type := {
  status : N;
  statusText : string;
  json : Error + gmap string value
}.

(** [response.ok] *)
Definition ok (response : Response) : bool :=
  ((200 <=? status response) && (status response <=? 299))%N.

(** How [fetch(url)] settles: rejected by the transport, or fulfilled with a
    response of any status. *)
Inductive FetchOutcome : Type :=
  | Rejected (error : Error)
  | Fulfilled (response : Response).

(** [AppState.state] *)
Record State : Type := {
  loading : bool;
  error : option string;
  currentPicture : option (gmap string value);
  selectedDate : string
}.

(** The observable world: the application state, the URLs of the GET requests
    handed to [fetch] so far (oldest first) and the lines written with
    [console.error]. *)
Record World : Type := {
  app : State;
  requests : list string;
  console : list string
}.

(** Computations that change the world and either throw or return. *)
Definition M (A : Type) : Type := World → World * (Error + A).

Definition ret {A} (a : A) : M A := λ w, (w, inr a).

Definition throw {A} (e : Error) : M A := λ w, (w, inl e).

Definition bind {A B} (m : M A) (k : A → M B) : M B :=
  λ w, match m w with
       | (w', inr a) => k a w'
       | (w', inl e) => (w', inl e)
       end.

(** [try { m } catch (error) { handler(error) }] *)
Definition try_catch {A} (m : M A) (handler : Error → M A) : M A :=
  λ w, match m w with
       | (w', inr a) => (w', inr a)
       | (w', inl e) => handler e w'
       end.

Notation "'let*' x ':=' m 'in' k" := (bind m (λ x, k))
  (at level 10, x name, m at level 100, k at level 200).
Notation "m ';;' k" := (bind m (λ _, k))
  (at level 100, k at level 200, right associativity).

Definition console_error (line : string) : M unit :=
  λ w, ({| app := app w; requests := requests w; console := console w ++ [line] |},
        inr tt).

(** ** [AstronomyAPIService.handleApiError] *)

Definition errorMessages : gmap N string :=
  {[ 429%N := "Rate limit exceeded. Get your free NASA API key at: https://api.nasa.gov/";
     403%N := "API access forbidden. Please check your API key in config.js";
     404%N := "Picture not found for the selected date";
     500%N := "API server error. Please try again later" ]}.

(** [entry || fallback] where [entry] is a table entry or [undefined]. *)
Definition entry_or (entry : option string) (fallback : string) : string :=
  match entry with
  | Some "" | None => fallback
  | Some s => s
  end.

Definition handleApiError (response : Response) : Error :=
  let message :=
    entry_or (errorMessages !! status response)
      ("API request failed: " +:+ pretty (status response) +:+ " "
       +:+ statusText response) in
  {| message := message |}.

(** ** [AstronomyAPIService.fetchPictureData] *)

Section Service.

Variable config : Config.

(** The network: how the request for a URL settles. *)
Variable network : string → FetchOutcome.

(** [await fetch(url)]: one GET request. *)
Definition fetch (url : string) : M Response :=
  λ w, ({| app := app w; requests := requests w ++ [url]; console := console w |},
        match network url with
        | Rejected e => inl e
        | Fulfilled response => inr response
        end).

(** [await response.json()] *)
Definition read_json (response : Response) : M (gmap string value) :=
  match json response with
  | inl e => throw e
  | inr data => ret data
  end.

Definition fetchPictureData (date : string) : M (gmap string value) :=
  try_catch
    (let url := buildApiUrl config date in
     let* response := fetch url in
     if negb (ok response) then throw (handleApiError response)
     else
       let* rawData := read_json response in
       ret (transformResponse config rawData))
    (λ error,
       console_error ("API Service Error: " +:+ message error);;
       throw error).

End Service.

(** ** [AppUtils.validateApiResponse] *)

Fixpoint join (sep : string) (l : list string) : string :=
  match l with
  | [] => ""
  | [s] => s
  | s :: l' => s +:+ sep +:+ join sep l'
  end.

Definition requiredFields_default : list string := ["title"; "url"].

Definition validateApiResponse (response : gmap string value)
                               (requiredFields : list string) : Error + bool :=
  let missing := filter (λ field, truthy (get response field) = false) requiredFields in
  if (0 <? List.length missing)%nat then
    inl {| message := "Invalid API response: missing fields " +:+ join ", " missing |}
  else inr true.

(** ** [AppState.setState] and [ControlsComponent.loadPicture] *)

(** The argument of [setState]: the fields it supplies. *)
Record Patch : Type := {
  set_loading : option bool;
  set_error : option (option string);
  set_currentPicture : option (option (gmap string value));
  set_selectedDate : option string
}.

(** [{ ...state, ...newState }] *)
Definition merge (state : State) (newState : Patch) : State :=
  {| loading := default (loading state) (set_loading newState);
     error := default (error state) (set_error newState);
     currentPicture := default (currentPicture state) (set_currentPicture newState);
     selectedDate := default (selectedDate state) (set_selectedDate newState) |}.

Definition with_app (w : World) (state : State) : World :=
  {| app := state; requests := requests w; console := console w |}.

(** [AstronomyAPIService.createDemoSample], [today] being the current date. *)
Definition createDemoSample (today : string) : gmap string value :=
  {[ "title" := VStr "The Horsehead Nebula (Demo Sample)";
     "date" := VStr today;
     "explanation" := VStr "This is a demo sample showing your futuristic astronomy app. The Horsehead Nebula is a dark nebula in the constellation Orion. Get your free NASA API key to see real daily astronomy pictures!";
     "url" := VStr "https://upload.wikimedia.org/wikipedia/commons/thumb/e/e0/Horsehead_Nebula_0.jpg/512px-Horsehead_Nebula_0.jpg";
     "hdurl" := VStr "https://upload.wikimedia.org/wikipedia/commons/e/e0/Horsehead_Nebula_0.jpg";
     "media_type" := VStr "image";
     "copyright" := VStr "Demo Image from Wikimedia Commons" ]}.

Section App.

Variable config : Config.
Variable network : string → FetchOutcome.

(** [notifySubscribers]: the components render into the DOM, which is not
    modelled; [subscribers state] is the error of the first subscriber whose
    [render] throws on [state], if any does. *)
Variable subscribers : State → option Error.

Definition setState (newState : Patch) : M unit :=
  λ w, let state := merge (app w) newState in
       (with_app w state,
        match subscribers state with
        | Some e => inl e
        | None => inr tt
        end).

Definition loading_patch : Patch :=
  {| set_loading := Some true; set_error := Some None;
     set_currentPicture := None; set_selectedDate := None |}.

Definition loaded_patch (data : gmap string value) (date : string) : Patch :=
  {| set_loading := Some false; set_error := None;
     set_currentPicture := Some (Some data); set_selectedDate := Some date |}.

Definition failed_patch (error : Error) : Patch :=
  {| set_loading := Some false; set_error := Some (Some (message error));
     set_currentPicture := None; set_selectedDate := None |}.

Definition demo_patch (today : string) : Patch :=
  {| set_loading := None; set_error := Some None;
     set_currentPicture := Some (Some (createDemoSample today));
     set_selectedDate := None |}.

(** [loadPicture] in the schedule in which nothing else is handled while it
    waits for [fetchPictureData]; the event loop below covers the schedules
    in which other events are handled in between. *)
Definition loadPicture (date : string) : M unit :=
  try_catch
    (setState loading_patch;;
     let* data := fetchPictureData config network date in
     setState (loaded_patch data date))
    (λ error, setState (failed_patch error)).

(** *** The event loop

    [loadPicture] runs up to [await fetch(url)], other events are handled
    while the request is in flight, and the rest of [loadPicture] runs when
    the request settles. *)

(** [fetch(url)] up to the point where the request is on the wire. *)
Definition issue (url : string) : M unit :=
  λ w, ({| app := app w; requests := requests w ++ [url]; console := console w |},
        inr tt).

(** [fetchPictureData] from the point where [fetch] has settled. *)
Definition fetched (outcome : FetchOutcome) : M (gmap string value) :=
  try_catch
    (let* response :=
       match outcome with
       | Rejected e => throw e
       | Fulfilled response => ret response
       end in
     if negb (ok response) then throw (handleApiError response)
     else
       let* rawData := read_json response in
       ret (transformResponse config rawData))
    (λ error,
       console_error ("API Service Error: " +:+ message error);;
       throw error).

(** [loadPicture] up to its [await]: [true] when a request is now in flight,
    [false] when [loadPicture] has already ended in its [catch] block. *)
Definition begin (date : string) : M bool :=
  try_catch
    (setState loading_patch;;
     issue (buildApiUrl config date);;
     ret true)
    (λ error, setState (failed_patch error);; ret false).

(** [loadPicture] from the point where the request has settled. *)
Definition resume (date : string) (outcome : FetchOutcome) : M unit :=
  try_catch
    (let* data := fetched outcome in
     setState (loaded_patch data date))
    (λ error, setState (failed_patch error)).

(** The browser side: the world, the value of the date input and the dates of
    the [loadPicture] calls that wait for [fetchPictureData] (oldest first). *)
Record UI : Type := {
  world : World;
  dateInput : string;
  pending : list string
}.

(** What the event loop handles: the clicks and the key press bound in
    [bindEvents], an edit of the date input, a click on the demo button of
    [ErrorComponent], and the settling of the [i]-th waiting call. *)
Inductive Event : Type :=
  | FetchClick
  | EnterKey
  | TodayClick (today : string)
  | DateInput (value : string)
  | DemoClick (today : string)
  | Settle (i : nat) (outcome : FetchOutcome).

(** Calling [loadPicture(date)] from an event handler. *)
Definition start (date : string) (ui : UI) : UI :=
  match begin date (world ui) with
  | (w, inr true) =>
      {| world := w; dateInput := dateInput ui; pending := pending ui ++ [date] |}
  | (w, _) => {| world := w; dateInput := dateInput ui; pending := pending ui |}
  end.

(** [handleFetchClick] *)
Definition handleFetchClick (ui : UI) : UI :=
  let selectedDate := dateInput ui in
  if bool_decide (selectedDate ≠ "") then start selectedDate ui else ui.

(** [handleTodayClick] *)
Definition handleTodayClick (today : string) (ui : UI) : UI :=
  start today {| world := world ui; dateInput := today; pending := pending ui |}.

(** One turn of the event loop; [None] when the event cannot occur. *)
Definition step (ui : UI) (ev : Event) : option UI :=
  match ev with
  | FetchClick | EnterKey => Some (handleFetchClick ui)
  | TodayClick today => Some (handleTodayClick today ui)
  | DateInput value =>
      Some {| world := world ui; dateInput := value; pending := pending ui |}
  | DemoClick today =>
      Some {| world := fst (setState (demo_patch today) (world ui));
              dateInput := dateInput ui; pending := pending ui |}
  | Settle i outcome =>
      match pending ui !! i with
      | Some date =>
          Some {| world := fst (resume date outcome (world ui));
                  dateInput := dateInput ui;
                  pending := delete i (pending ui) |}
      | None => None
      end
  end.

Fixpoint run (ui : UI) (evs : list Event) : option UI :=
  match evs with
  | [] => Some ui
  | ev :: evs' =>
      match step ui ev with
      | Some ui' => run ui' evs'
      | None => None
      end
  end.

(** [new AppState()], [setupDateInput] and [loadTodaysPicture] on [today]:
    the UI once [initializeApp] is waiting for the first picture. *)
Definition boot (today : string) : UI :=
  start today
    {| world := {| app := {| loading := false; error := None;
                             currentPicture := None; selectedDate := today |};
                   requests := []; console := [] |};
       dateInput := today;
       pending := [] |}.

(** Events that call [loadPicture]. *)
Definition triggers (ev : Event) : bool :=
  match ev with
  | FetchClick | EnterKey | TodayClick _ => true
  | _ => false
  end.

(** Executions in which no event calls [loadPicture] while a request is in
    flight. *)
Fixpoint serial (ui : UI) (evs : list Event) : Prop :=
  match evs with
  | [] => True
  | ev :: evs' =>
      (triggers ev = true → pending ui = []) ∧
      match step ui ev with
      | Some ui' => serial ui' evs'
      | None => True
      end
  end.

End App.

(** ** The logical fields *)

Inductive Field : Type :=
  | Title | Date | Explanation | PictureUrl | Hdurl | MediaType | Copyright.

(** The entry of the mapping for a logical field. *)
Definition mapped (mapping : ResponseMapping) (f : Field) : option string :=
  match f with
  | Title => m_title mapping
  | Date => m_date mapping
  | Explanation => m_explanation mapping
  | PictureUrl => m_url mapping
  | Hdurl => m_hdurl mapping
  | MediaType => m_mediaType mapping
  | Copyright => m_copyright mapping
  end.

(** The name of a logical field in the normalized record, which is also the
    name [transformResponse] falls back to in the raw response. *)
Definition name (f : Field) : string :=
  match f with
  | Title => "title"
  | Date => "date"
  | Explanation => "explanation"
  | PictureUrl => "url"
  | Hdurl => "hdurl"
  | MediaType => "media_type"
  | Copyright => "copyright"
  end.

(** "The key is absent or holds a falsy value." *)
Definition absent_or_falsy (data : gmap string value) (k : string) : Prop :=
  match data !! k with
  | None => True
  | Some v => truthy v = false
  end.

(** The order of two distinct own keys: the second one comes first exactly
    when it is an array index and the first one is not, or is a larger
    index. *)
Definition second_first (k1 k2 : string) : bool :=
  match Obj.array_index k1, Obj.array_index k2 with
  | Some n1, Some n2 => negb (n1 <? n2)%N
  | None, Some _ => true
  | _, None => false
  end.

(** [t.includes(s)] *)
Definition includes (s t : string) : Prop := ∃ pre post, t = pre +:+ s +:+ post.

(** ** Rendering decisions of the components *)

(** [t.includes(s)] on strings, as a test. *)
Fixpoint includesb (s t : string) : bool :=
  String.prefix s t ||
  match t with
  | "" => false
  | String _ t' => includesb s t'
  end.

(** [v === needle] for a string [needle]. *)
Definition same_string (needle : string) (v : value) : bool :=
  match v with
  | VStr s => String.eqb s needle
  | _ => false
  end.

(** [receiver.includes(needle)]: strings and arrays have the method, on any
    other value the call throws a [TypeError] ([None]). *)
Definition call_includes (receiver : value) (needle : string) : option bool :=
  match receiver with
  | VStr s => Some (includesb needle s)
  | VArr elems => Some (existsb (same_string needle) elems)
  | _ => None
  end.

(** The constant [isVideo] of [MediaComponent.createMediaElement]; [None] when
    its evaluation throws. *)
Definition isVideo (data : gmap string value) : option bool :=
  if same_string "video" (get data "media_type") then Some true
  else
    match call_includes (get data "url") "youtube.com" with
    | None => None
    | Some true => Some true
    | Some false => call_includes (get data "url") "vimeo.com"
    end.

Section Rendering.

(** The [TypeError] an engine raises for [url.includes(...)] on a [url] that
    has no such method. *)
Variable type_error : value → Error.

(** What the DOM raises, if anything, once the kind of element is chosen:
    while the element is built from the record and while [InfoComponent]
    writes the record into the page. *)
Variable later : State → option Error.

(** [MediaComponent.render] up to the choice of the element: the error thrown
    by [createMediaElement], if it throws. *)
Definition MediaComponent_render (state : State) : option Error :=
  match currentPicture state with
  | Some data =>
      match isVideo data with
      | None => Some (type_error (get data "url"))
      | Some _ => None
      end
  | None => None
  end.

(** [notifySubscribers] with the components of [initializeComponents]:
    loading, error, media, info and controls render in this order.  The
    loading and error components do not throw, without a picture nothing
    else is rendered, and with a picture [createMediaElement] comes first. *)
Definition notifySubscribers (state : State) : option Error :=
  match currentPicture state with
  | Some _ =>
      match MediaComponent_render state with
      | Some e => Some e
      | None => later state
      end
  | None => None
  end.

End Rendering.

(** What [ErrorComponent] shows: whether the panel is displayed, the markup of
    the message and whether the demo button is in the panel. *)
Record ErrorPanel : Type := {
  panel_visible : bool;
  panel_html : string;
  retry_button : bool
}.

(** [error.replace(/\n/g, '<br>')] *)
Fixpoint replace_newlines (s : string) : string :=
  match s with
  | "" => ""
  | String c s' =>
      if Ascii.eqb c "010" then "<br>" +:+ replace_newlines s'
      else String c (replace_newlines s')
  end.

(** [ErrorComponent.showError] *)
Definition showError (error : string) (panel : ErrorPanel) : ErrorPanel :=
  {| panel_visible := true;
     panel_html := replace_newlines error;
     retry_button := retry_button panel || includesb "Rate limit exceeded" error |}.

(** [ErrorComponent.render] *)
Definition ErrorComponent_render (state : State) (panel : ErrorPanel) : ErrorPanel :=
  match error state with
  | Some "" | None =>
      {| panel_visible := false; panel_html := panel_html panel;
         retry_button := retry_button panel |}
  | Some e => showError e panel
  end.

(** ** [AstronomyPictureApp.loadApiConfig] and [updateApiConfig] *)

(** A profile of [API_CONFIGS], or the argument of [updateApiConfig]: the
    fields it supplies. *)
Record Profile : Type := {
  p_baseUrl : option string;
  p_apiKey : option string;
  p_dateParam : option string;
  p_apiKeyParam : option string;
  p_responseMapping : option (option ResponseMapping)
}.

(** [{ ...config, ...profile }] *)
Definition spread (config : Config) (profile : Profile) : Config :=
  {| baseUrl := default (baseUrl config) (p_baseUrl profile);
     apiKey := default (apiKey config) (p_apiKey profile);
     dateParam := default (dateParam config) (p_dateParam profile);
     apiKeyParam := default (apiKeyParam config) (p_apiKeyParam profile);
     responseMapping := default (responseMapping config) (p_responseMapping profile) |}.

Definition defaultConfig : Config := nasa.

(** [loadApiConfig], given the globals [API_CONFIGS] and [ACTIVE_API] when
    config.js has defined them. *)
Definition loadApiConfig (API_CONFIGS : option (gmap string Profile))
                         (ACTIVE_API : option string) : Config :=
  match API_CONFIGS, ACTIVE_API with
  | Some configs, Some active =>
      match configs !! active with
      | Some profile => spread defaultConfig profile
      | None => defaultConfig
      end
  | _, _ => defaultConfig
  end.

(** [updateApiConfig]: the new [apiConfig]. *)
Definition updateApiConfig (apiConfig : Config) (newConfig : Profile) : Config :=
  spread apiConfig newConfig.

Definition profile_of (config : Config) : Profile :=
  {| p_baseUrl := Some (baseUrl config); p_apiKey := Some (apiKey config);
     p_dateParam := Some (dateParam config);
     p_apiKeyParam := Some (apiKeyParam config);
     p_responseMapping := Some (responseMapping config) |}.

(** [API_CONFIGS] of config.js *)
Definition shipped_configs : gmap string Profile :=
  {[ "nasa" := profile_of nasa; "custom" := profile_of custom ]}.

(** ** Reading a query string back *)

Definition hex_value (c : ascii) : option N :=
  let n := N_of_ascii c in
  if ((48 <=? n) && (n <=? 57))%N then Some (n - 48)%N
  else if ((65 <=? n) && (n <=? 70))%N then Some (n - 55)%N
  else None.

(** The inverse of [Url.urlencode] on its outputs: [+] is a space, [%XY] the
    byte with hexadecimal digits [X] and [Y]. *)
Fixpoint urldecode (s : string) : option string :=
  match s with
  | "" => Some ""
  | String "+" s' => String " " <$> urldecode s'
  | String "%" (String h (String l s')) =>
      match hex_value h, hex_value l with
      | Some a, Some b => String (ascii_of_N (16 * a + b)) <$> urldecode s'
      | _, _ => None
      end
  | String "%" _ => None
  | String c s' => String c <$> urldecode s'
  end.

(** The characters that occur in a serialized query value. *)
Definition query_safe (c : ascii) : bool :=
  Url.unreserved c || Ascii.eqb c "+" || Ascii.eqb c "%".

(** The seven names of the normalized record. *)
Definition names : list string :=
  ["title"; "date"; "explanation"; "url"; "hdurl"; "media_type"; "copyright"].

(** Strings whose characters are all in a class. *)
Fixpoint all_chars (P : ascii → bool) (s : string) : bool :=
  match s with
  | "" => true
  | String c s' => P c && all_chars P s'
  end.

(** ** Measures and invariants of executions *)

(** The number of [Settle] events of an execution. *)
Fixpoint settles (evs : list Event) : nat :=
  match evs with
  | [] => 0
  | Settle _ _ :: evs' => S (settles evs')
  | _ :: evs' => settles evs'
  end.

(** The state after a load that succeeded. *)
Definition loaded_state (data : gmap string value) (date : string) : State :=
  {| loading := false; error := None; currentPicture := Some data;
     selectedDate := date |}.

(** The spinner state agrees with the requests in flight as long as calls do
    not overlap. *)
Definition spinner_ok (ui : UI) : Prop :=
  (List.length (pending ui) ≤ 1)%nat
  ∧ (loading (app (world ui)) = true ↔ pending ui ≠ []).

(** ** Sample configurations, responses and worlds *)

Definition empty_world : World :=
  {| app := {| loading := false; error := None; currentPicture := None;
               selectedDate := "2024-01-15" |};
     requests := []; console := [] |}.

(** A profile whose upstream names for [title] and [mediaType] are names that
    every object inherits. *)
Definition inherited_mapping : ResponseMapping := {|
  m_title := Some "toString";
  m_date := Some "date";
  m_explanation := Some "explanation";
  m_url := Some "url";
  m_hdurl := Some "hdurl";
  m_mediaType := Some "constructor";
  m_copyright := Some "copyright"
|}.

Definition inherited : Config := {|
  baseUrl := "https://your-api.com/astronomy";
  apiKey := "your-api-key-here";
  dateParam := "date";
  apiKeyParam := "key";
  responseMapping := Some inherited_mapping
|}.

Definition unmapped : Config :=
  {| baseUrl := "https://your-api.com/astronomy"; apiKey := "k";
     dateParam := "date"; apiKeyParam := "key"; responseMapping := None |}.

Definition teapot : Response :=
  {| status := 418; statusText := "I'm a teapot"; json := inr ∅ |}.

Definition offline : string → FetchOutcome :=
  λ _, Rejected {| message := "Failed to fetch" |}.

Definition silent : State → option Error := λ _, None.

Definition world_with_picture : World :=
  {| app := {| loading := false; error := None;
               currentPicture := Some (createDemoSample "2024-01-14");
               selectedDate := "2024-01-14" |};
     requests := []; console := [] |}.

Definition found : FetchOutcome :=
  Fulfilled {| status := 200; statusText := "OK";
               json := inr {[ "title" := VStr "M31";
                              "url" := VStr "https://example.org/m31.jpg" ]} |}.

Definition numbered : Config :=
  {| baseUrl := "https://your-api.com/astronomy"; apiKey := "SECRET";
     dateParam := "date"; apiKeyParam := "1"; responseMapping := None |}.

Definition no_url : FetchOutcome :=
  Fulfilled {| status := 200; statusText := "OK";
               json := inr {[ "title" := VStr "M31" ]} |}.

Definition engine_error : value → Error :=
  λ _, {| message := "Cannot read properties of undefined (reading 'includes')" |}.

Definition too_many : Response :=
  {| status := 429; statusText := "Too Many Requests"; json := inr ∅ |}.

(** Two calls waiting: the one for the 15th, then the one for the 16th. *)
Definition two_waiting : UI :=
  {| world := {| app := {| loading := true; error := None; currentPicture := None;
                           selectedDate := "2024-01-15" |};
                 requests := [buildApiUrl nasa "2024-01-15";
                              buildApiUrl nasa "2024-01-16"];
                 console := [] |};
     dateInput := "2024-01-16";
     pending := ["2024-01-15"; "2024-01-16"] |}.

(** * Properties *)

(** ** Sanity checks *)

Example transform_nasa_sample :
  get (transformResponse nasa
         {[ "title" := VStr "M31"; "url" := VStr "https://x/y.jpg" ]}) "media_type"
  = VStr "image".
Proof. vm_compute. reflexivity. Qed.

Example buildApiUrl_nasa :
  buildApiUrl nasa "2024-01-15"
  = "https://api.nasa.gov/planetary/apod?date=2024-01-15&api_key=DEMO_KEY".
Proof. vm_compute. reflexivity. Qed.

Example urlencode_sample : Url.urlencode "a b&c=d~/" = "a+b%26c%3Dd%7E%2F".
Proof. vm_compute. reflexivity. Qed.

Example own_entries_order :
  Obj.own_entries (Obj.define "2" "x" (Obj.define "date" "d" (Obj.define "10" "y" [])))
  = [("2", "x"); ("10", "y"); ("date", "d")].
Proof. vm_compute. reflexivity. Qed.

Example handleApiError_418 :
  message (handleApiError {| status := 418; statusText := "I'm a teapot"; json := inr ∅ |})
  = "API request failed: 418 I'm a teapot".
Proof. vm_compute. reflexivity. Qed.

Example validate_empty :
  validateApiResponse ∅ requiredFields_default
  = inl {| message := "Invalid API response: missing fields title, url" |}.
Proof. vm_compute. reflexivity. Qed.

(** ** Reading the normalized record *)

Lemma normalize_field (mapping : ResponseMapping) (data : gmap string value) (f : Field) :
  normalize mapping data !! name f =
  Some (match f with
        | MediaType =>
            get data (property_key (mapped mapping f)) ||| get data (name f)
            ||| VStr "image"
        | _ => get data (property_key (mapped mapping f)) ||| get data (name f)
        end).
Proof.
  unfold normalize. destruct f; cbn [name mapped]; by simplify_map_eq.
Qed.

Lemma get_normalize (mapping : ResponseMapping) (data : gmap string value) (f : Field) :
  get (normalize mapping data) (name f) =
  match f with
  | MediaType =>
      get data (property_key (mapped mapping f)) ||| get data (name f) ||| VStr "image"
  | _ => get data (property_key (mapped mapping f)) ||| get data (name f)
  end.
Proof. unfold get at 1. by rewrite normalize_field. Qed.

Lemma get_absent (data : gmap string value) (k : string) :
  data !! k = None → k ∉ object_prototype → get data k = VUndefined.
Proof. unfold get. intros -> Hk. by rewrite bool_decide_eq_false_2. Qed.

Lemma get_inherited (data : gmap string value) (k : string) :
  data !! k = None → k ∈ object_prototype → get data k = VInherited k.
Proof. unfold get. intros -> Hk. by rewrite bool_decide_eq_true_2. Qed.

Lemma name_not_inherited (f : Field) : name f ∉ object_prototype.
Proof.
  intros H. destruct f;
    repeat (apply elem_of_cons in H as [H | H]; [discriminate H |]);
    by apply elem_of_nil in H.
Qed.

Lemma get_present (data : gmap string value) (k : string) (v : value) :
  data !! k = Some v → get data k = v.
Proof. unfold get. by intros ->. Qed.

Lemma absent_or_falsy_get (data : gmap string value) (k : string) :
  absent_or_falsy data k →
  (data !! k = None → k ∉ object_prototype) →
  truthy (get data k) = false.
Proof.
  unfold absent_or_falsy, get. destruct (data !! k); [done |].
  intros _ Hk. by rewrite bool_decide_eq_false_2 by auto.
Qed.

Lemma or_else_truthy (a b : value) : truthy a = true → a ||| b = a.
Proof. unfold or_else. by intros ->. Qed.

Lemma or_else_falsy (a b : value) : truthy a = false → a ||| b = b.
Proof. unfold or_else. by intros ->. Qed.

Lemma truthy_or_else (a b : value) : truthy b = true → truthy (a ||| b) = true.
Proof. unfold or_else. by destruct (truthy a) eqn:?. Qed.

(** ** [transformResponse] *)

(** C8. Without a [responseMapping] in the configuration, [transformResponse]
    returns the raw response itself: no field is renamed, no fallback is
    applied and no [media_type] is defaulted. *)
Theorem C8_transformResponse_identity (config : Config) (data : gmap string value) :
  responseMapping config = None → transformResponse config data = data.
Proof. unfold transformResponse. by intros ->. Qed.

Lemma C8_witness :
  responseMapping unmapped = None ∧
  transformResponse unmapped {[ "picture_title" := VStr "M31" ]}
  = {[ "picture_title" := VStr "M31" ]}.
Proof. split; [reflexivity | apply C8_transformResponse_identity; reflexivity]. Defined.

Lemma get_media_type (mapping : ResponseMapping) (data : gmap string value) :
  get (normalize mapping data) "media_type"
  = get data (property_key (m_mediaType mapping)) ||| get data "media_type"
    ||| VStr "image".
Proof. exact (get_normalize mapping data MediaType). Qed.

Lemma media_type_truthy (mapping : ResponseMapping) (data : gmap string value) :
  truthy (get (normalize mapping data) "media_type") = true.
Proof. rewrite get_media_type. by apply truthy_or_else. Qed.

(** C9, as it is stated, fails when the mapped [mediaType] key is a name
    that every object inherits: with [mediaType] mapped to [constructor] and
    the raw response [{}], both keys are absent, and the normalized
    [media_type] is the inherited [constructor], not ['image']. *)
Lemma C9_counterexample :
  let data : gmap string value := ∅ in
  absent_or_falsy data (property_key (m_mediaType inherited_mapping)) ∧
  absent_or_falsy data "media_type" ∧
  get (transformResponse inherited data) "media_type" = VInherited "constructor" ∧
  get (transformResponse inherited data) "media_type" ≠ VStr "image".
Proof. vm_compute. split_and!; (reflexivity || discriminate). Qed.

(** C9, amended. With a [responseMapping], when the mapped [mediaType] key
    and the key [media_type] are both absent from the raw response or hold
    falsy values, and the mapped key, where it is absent, is not a name
    inherited from [Object.prototype], the normalized [media_type] is the
    string ['image']; and the normalized record always owns a [media_type]
    that is not [undefined]. *)
Theorem C9_media_type_default
    (config : Config) (mapping : ResponseMapping) (data : gmap string value) :
  responseMapping config = Some mapping →
  (absent_or_falsy data (property_key (m_mediaType mapping)) →
   (data !! property_key (m_mediaType mapping) = None →
    property_key (m_mediaType mapping) ∉ object_prototype) →
   absent_or_falsy data "media_type" →
   get (transformResponse config data) "media_type" = VStr "image")
  ∧ is_Some (transformResponse config data !! "media_type")
  ∧ get (transformResponse config data) "media_type" ≠ VUndefined.
Proof.
  unfold transformResponse. intros ->. split_and!.
  - intros Hm Hni Hs. apply absent_or_falsy_get in Hm; [| done].
    apply absent_or_falsy_get in Hs; [| intros _; apply (name_not_inherited MediaType)].
    by rewrite get_media_type, (or_else_falsy _ _ Hm), (or_else_falsy _ _ Hs).
  - exact (mk_is_Some _ _ (normalize_field mapping data MediaType)).
  - intros Hu. pose proof (media_type_truthy mapping data) as Ht.
    by rewrite Hu in Ht.
Qed.

Lemma C9_witness :
  let data : gmap string value := {[ "title" := VStr "M31"; "type" := VStr "" ]} in
  responseMapping custom = Some custom_mapping ∧
  get (transformResponse custom data) "media_type" = VStr "image".
Proof.
  split; [reflexivity |].
  apply (C9_media_type_default custom custom_mapping);
    [reflexivity | vm_compute; reflexivity | | vm_compute; reflexivity].
  intros Habsent. vm_compute in Habsent. discriminate Habsent.
Defined.

(** C3, as the specification states it, fails: a mapped key that is present
    with a falsy value (here the empty string under [picture_title]) does not
    reach the normalized record, the same-named key does. *)
Lemma C3_counterexample :
  let data : gmap string value :=
    {[ "picture_title" := VStr ""; "title" := VStr "Andromeda";
       "picture_date" := VStr "2024-01-15"; "description" := VStr "A galaxy";
       "image_url" := VStr "https://example.org/m31.jpg";
       "high_res_url" := VStr "https://example.org/m31_hd.jpg";
       "type" := VStr "image"; "credit" := VStr "ESO" ]} in
  (∀ f, is_Some (data !! property_key (mapped custom_mapping f))) ∧
  data !! property_key (mapped custom_mapping Title) = Some (VStr "") ∧
  get (transformResponse custom data) (name Title) = VStr "Andromeda" ∧
  ¬ (∀ f, Some (get (transformResponse custom data) (name f))
          = data !! property_key (mapped custom_mapping f)).
Proof.
  intros data. split_and!.
  - intros f. destruct f; vm_compute; by eexists.
  - vm_compute. reflexivity.
  - vm_compute. reflexivity.
  - intros H. specialize (H Title). vm_compute in H. discriminate H.
Qed.

(** C3, amended. With a [responseMapping], for every logical field whose
    mapped key is present in the raw response with a truthy value, the field
    of the normalized record is that value. *)
Theorem C3_mapped_truthy_value
    (config : Config) (mapping : ResponseMapping) (data : gmap string value)
    (f : Field) (v : value) :
  responseMapping config = Some mapping →
  data !! property_key (mapped mapping f) = Some v →
  truthy v = true →
  get (transformResponse config data) (name f) = v.
Proof.
  unfold transformResponse. intros -> Hv Ht.
  rewrite get_normalize, (get_present _ _ _ Hv).
  destruct f; by rewrite !(or_else_truthy v _ Ht).
Qed.

Lemma C3_witness :
  let data : gmap string value :=
    {[ "picture_title" := VStr "M31"; "title" := VStr "Andromeda" ]} in
  responseMapping custom = Some custom_mapping ∧
  get (transformResponse custom data) (name Title) = VStr "M31".
Proof.
  split; [reflexivity |].
  apply (C3_mapped_truthy_value custom custom_mapping _ Title);
    vm_compute; reflexivity.
Defined.

(** C2, as the specification states it, fails in two ways.  For [mediaType]:
    with neither the mapped key nor [media_type] in the raw response, the
    normalized [media_type] is ['image'], not [undefined].  For a mapped key
    that every object inherits: with [title] mapped to [toString] and the raw
    response [{}], neither [toString] nor [title] is in the response, and the
    normalized [title] is the inherited [toString], not [undefined]. *)
Lemma C2_counterexample :
  (let data : gmap string value :=
     {[ "title" := VStr "M31"; "url" := VStr "https://example.org/m31.jpg" ]} in
   data !! property_key (mapped nasa_mapping MediaType) = None ∧
   data !! name MediaType = None ∧
   get (transformResponse nasa data) (name MediaType) = VStr "image" ∧
   get (transformResponse nasa data) (name MediaType) ≠ VUndefined ∧
   get (transformResponse nasa data) (name MediaType) ≠ get data (name MediaType))
  ∧
  (let data : gmap string value := ∅ in
   data !! property_key (mapped inherited_mapping Title) = None ∧
   data !! name Title = None ∧
   get (transformResponse inherited data) (name Title) = VInherited "toString" ∧
   get (transformResponse inherited data) (name Title) ≠ VUndefined ∧
   get (transformResponse inherited data) (name Title) ≠ get data (name Title)).
Proof. vm_compute. split_and!; (reflexivity || discriminate). Qed.

(** C2, amended. With a [responseMapping] and a raw response that does not
    contain the mapped key of a logical field, the mapped key not being a
    name inherited from [Object.prototype]: for [title], [date],
    [explanation], [url], [hdurl] and [copyright] the normalized field is the
    value at the same-named key, hence [undefined] when that key is absent
    too; for [mediaType] it is the value at [media_type] when that value is
    truthy and ['image'] otherwise. *)
Theorem C2_fallback_same_named
    (config : Config) (mapping : ResponseMapping) (data : gmap string value)
    (f : Field) :
  responseMapping config = Some mapping →
  data !! property_key (mapped mapping f) = None →
  property_key (mapped mapping f) ∉ object_prototype →
  match f with
  | MediaType =>
      get (transformResponse config data) (name f)
      = (if truthy (get data (name f)) then get data (name f) else VStr "image")
  | _ =>
      get (transformResponse config data) (name f) = get data (name f) ∧
      (data !! name f = None →
       get (transformResponse config data) (name f) = VUndefined)
  end.
Proof.
  unfold transformResponse. intros -> Ha Hni.
  rewrite get_normalize, (get_absent _ _ Ha Hni).
  pose proof (name_not_inherited f) as Hname.
  destruct f; cbn [name] in *; rewrite ?(or_else_falsy VUndefined) by done;
    try (split; [done | intros Hn; by apply get_absent]).
  done.
Qed.

Lemma C2_witness :
  let data : gmap string value :=
    {[ "title" := VStr "Andromeda"; "url" := VStr "https://example.org/m31.jpg" ]} in
  responseMapping custom = Some custom_mapping ∧
  data !! property_key (mapped custom_mapping Title) = None ∧
  get (transformResponse custom data) (name Title) = get data (name Title).
Proof.
  split_and!; [reflexivity | reflexivity |].
  apply (C2_fallback_same_named custom custom_mapping _ Title);
    [reflexivity | reflexivity |].
  vm_compute. intros H.
  repeat (apply elem_of_cons in H as [H | H]; [discriminate H |]).
  by apply elem_of_nil in H.
Defined.

(** ** [handleApiError] and [fetchPictureData] *)

Lemma handleApiError_message (response : Response) :
  message (handleApiError response) =
  if decide (status response = 429%N) then
    "Rate limit exceeded. Get your free NASA API key at: https://api.nasa.gov/"
  else if decide (status response = 403%N) then
    "API access forbidden. Please check your API key in config.js"
  else if decide (status response = 404%N) then
    "Picture not found for the selected date"
  else if decide (status response = 500%N) then
    "API server error. Please try again later"
  else "API request failed: " +:+ pretty (status response) +:+ " "
       +:+ statusText response.
Proof.
  unfold handleApiError, errorMessages. cbn [message].
  repeat (destruct (decide (status response = _)) as [Hs | ?];
          [rewrite Hs; by simplify_map_eq |]).
  by simplify_map_eq.
Qed.

Lemma fetchPictureData_not_ok
    (config : Config) (network : string → FetchOutcome) (date : string) (w : World)
    (response : Response) :
  network (buildApiUrl config date) = Fulfilled response →
  ok response = false →
  snd (fetchPictureData config network date w) = inl (handleApiError response).
Proof.
  intros Hn Hok. unfold fetchPictureData, try_catch, bind, fetch, throw.
  by rewrite Hn, Hok.
Qed.

(** C4. When the response has a non-success status, [fetchPictureData] rejects
    with the error of [handleApiError]: its message is the rate-limit message
    for 429, the forbidden message for 403, the picture-not-found message for
    404, the server-error message for 500, and for every other status the
    generic text [API request failed: <status> <statusText>], which includes
    the status code. *)
Theorem C4_error_message_by_status
    (config : Config) (network : string → FetchOutcome) (date : string) (w : World)
    (response : Response) :
  network (buildApiUrl config date) = Fulfilled response →
  ok response = false →
  ∃ e, snd (fetchPictureData config network date w) = inl e ∧
    (status response = 429%N → message e =
       "Rate limit exceeded. Get your free NASA API key at: https://api.nasa.gov/") ∧
    (status response = 403%N → message e =
       "API access forbidden. Please check your API key in config.js") ∧
    (status response = 404%N → message e = "Picture not found for the selected date") ∧
    (status response = 500%N → message e = "API server error. Please try again later") ∧
    (status response ∉ [429; 403; 404; 500]%N →
       message e = "API request failed: " +:+ pretty (status response) +:+ " "
                   +:+ statusText response
       ∧ includes (pretty (status response)) (message e)).
Proof.
  intros Hn Hok. exists (handleApiError response).
  split; [by apply fetchPictureData_not_ok |].
  rewrite handleApiError_message.
  split_and!; try (intros ->; reflexivity).
  intros Hs. repeat case_decide; try (exfalso; apply Hs; set_solver).
  split; [reflexivity |].
  by exists "API request failed: ", (" " +:+ statusText response).
Qed.

Lemma C4_witness :
  ∃ e, snd (fetchPictureData nasa (λ _, Fulfilled teapot) "2024-01-15" empty_world)
       = inl e
     ∧ message e = "API request failed: 418 I'm a teapot".
Proof.
  destruct (C4_error_message_by_status nasa (λ _, Fulfilled teapot) "2024-01-15"
              empty_world teapot eq_refl eq_refl)
    as (e & He & _ & _ & _ & _ & Hother).
  exists e. split; [exact He |].
  apply Hother. vm_compute. intros H.
  repeat (apply elem_of_cons in H as [H | H]; [discriminate H |]).
  by apply elem_of_nil in H.
Defined.

(** C6. Every call of [fetchPictureData] issues exactly one GET request, for
    the URL of [buildApiUrl], however the request settles: rejected by the
    transport, fulfilled with a non-success status, or fulfilled with a body
    that parses or does not parse. *)
Theorem C6_exactly_one_request
    (config : Config) (network : string → FetchOutcome) (date : string) (w : World) :
  requests (fst (fetchPictureData config network date w))
  = (requests w ++ [buildApiUrl config date])%list.
Proof.
  unfold fetchPictureData, try_catch, bind, fetch, throw, console_error, read_json, ret.
  destruct (network (buildApiUrl config date)) as [e | response]; [done |].
  destruct (ok response); cbn [negb]; [| done].
  by destruct (json response).
Qed.

Lemma fetchPictureData_ok
    (config : Config) (network : string → FetchOutcome) (date : string) (w : World)
    (response : Response) (data : gmap string value) :
  network (buildApiUrl config date) = Fulfilled response →
  ok response = true →
  json response = inr data →
  snd (fetchPictureData config network date w) = inr (transformResponse config data).
Proof.
  intros Hn Hok Hj. unfold fetchPictureData, try_catch, bind, fetch, read_json, ret.
  by rewrite Hn, Hok, Hj.
Qed.

(** C1 at a response without [title] and [url]: [fetchPictureData] resolves
    with a record whose [title] and [url] are [undefined], the record that
    [validateApiResponse] rejects. *)
Theorem C1_missing_title_url_accepted :
  let response :=
    {| status := 200; statusText := "OK";
       json := inr {[ "date" := VStr "2024-01-15";
                      "explanation" := VStr "A galaxy" ]} |} in
  ∃ record,
    snd (fetchPictureData nasa (λ _, Fulfilled response) "2024-01-15" empty_world)
    = inr record
    ∧ get record "title" = VUndefined
    ∧ get record "url" = VUndefined
    ∧ validateApiResponse record requiredFields_default
      = inl {| message := "Invalid API response: missing fields title, url" |}.
Proof.
  intros response. eexists. split; [vm_compute; reflexivity |].
  vm_compute. by split_and!.
Qed.

(** ** [buildApiUrl] *)

Lemma define_second (k1 v1 k2 v2 : string) :
  k1 ≠ k2 → Obj.define k2 v2 (Obj.define k1 v1 []) = [(k1, v1); (k2, v2)].
Proof.
  intros Hne. cbn [Obj.define].
  destruct (String.eqb_spec k2 k1) as [-> | _]; [done | reflexivity].
Qed.

Lemma define_same (k v1 v2 : string) :
  Obj.define k v2 (Obj.define k v1 []) = [(k, v2)].
Proof. cbn [Obj.define]. by rewrite String.eqb_refl. Qed.

Lemma own_entries_two (k1 v1 k2 v2 : string) :
  Obj.own_entries [(k1, v1); (k2, v2)]
  = if second_first k1 k2 then [(k2, v2); (k1, v1)] else [(k1, v1); (k2, v2)].
Proof.
  unfold Obj.own_entries, second_first. cbn [Obj.indexed Obj.named].
  destruct (Obj.array_index k1) as [n1 |], (Obj.array_index k2) as [n2 |];
    cbn [Obj.insert_index]; try reflexivity.
  by destruct (n1 <? n2)%N.
Qed.

Lemma query_params_distinct (config : Config) (date : string) :
  dateParam config ≠ apiKeyParam config →
  query_params config date
  = if second_first (dateParam config) (apiKeyParam config)
    then [(apiKeyParam config, apiKey config); (dateParam config, date)]
    else [(dateParam config, date); (apiKeyParam config, apiKey config)].
Proof.
  intros Hne. unfold query_params.
  by rewrite define_second, own_entries_two.
Qed.

(** C5, as the specification states it, fails when [dateParam] and
    [apiKeyParam] are the same name: the object literal then has a single
    property, which holds the API key, and the date is not in the URL. *)
Lemma C5_counterexample :
  let config :=
    {| baseUrl := "https://your-api.com/astronomy"; apiKey := "SECRET";
       dateParam := "key"; apiKeyParam := "key"; responseMapping := None |} in
  buildApiUrl config "2024-01-15" = "https://your-api.com/astronomy?key=SECRET" ∧
  query_params config "2024-01-15" = [("key", "SECRET")] ∧
  ¬ (∃ params,
       params ≡ₚ [(dateParam config, "2024-01-15"); (apiKeyParam config, apiKey config)] ∧
       buildApiUrl config "2024-01-15"
       = baseUrl config +:+ "?" +:+ Url.serialize params).
Proof.
  intros config. split_and!; [vm_compute; reflexivity | vm_compute; reflexivity |].
  intros (params & Hp & Hurl).
  assert (Hlen : List.length params = 2%nat) by (by rewrite Hp).
  destruct params as [| p1 [| p2 [| p3 params]]]; try discriminate Hlen.
  apply Permutation_length_2_inv in Hp as [Hp | Hp]; inversion Hp; subst;
    vm_compute in Hurl; discriminate Hurl.
Qed.

(** C5, amended. When [dateParam] and [apiKeyParam] are different names, the
    URL is [baseUrl], then [?], then the form-urlencoded serialization of
    exactly two parameters, [dateParam] bound to the date and [apiKeyParam]
    bound to [apiKey], and of no other. *)
Theorem C5_url_binds_date_and_key (config : Config) (date : string) :
  dateParam config ≠ apiKeyParam config →
  ∃ params,
    params ≡ₚ [(dateParam config, date); (apiKeyParam config, apiKey config)] ∧
    buildApiUrl config date = baseUrl config +:+ "?" +:+ Url.serialize params.
Proof.
  intros Hne. exists (query_params config date). split; [| reflexivity].
  rewrite query_params_distinct by done.
  destruct (second_first _ _); [apply Permutation_swap | reflexivity].
Qed.

Lemma C5_witness :
  dateParam nasa ≠ apiKeyParam nasa ∧
  ∃ params,
    params ≡ₚ [("date", "2024-01-15"); ("api_key", "DEMO_KEY")] ∧
    buildApiUrl nasa "2024-01-15"
    = "https://api.nasa.gov/planetary/apod" +:+ "?" +:+ Url.serialize params.
Proof.
  split; [discriminate |].
  apply (C5_url_binds_date_and_key nasa "2024-01-15"). discriminate.
Defined.

(** ** [setState] and [loadPicture] *)

Section AppProperties.

Variable config : Config.
Variable network : string → FetchOutcome.
Variable subscribers : State → option Error.

Lemma setState_app (newState : Patch) (w : World) :
  app (fst (setState subscribers newState w)) = merge (app w) newState.
Proof. reflexivity. Qed.

(** How [fetchPictureData] settles does not depend on the world it runs in. *)
Lemma fetchPictureData_result (date : string) (w w' : World) :
  snd (fetchPictureData config network date w)
  = snd (fetchPictureData config network date w').
Proof.
  unfold fetchPictureData, try_catch, bind, fetch, throw, console_error, read_json, ret.
  destruct (network (buildApiUrl config date)) as [e | response]; [done |].
  destruct (ok response); cbn [negb]; [| done].
  by destruct (json response).
Qed.

(** [fetchPictureData] does not touch the application state. *)
Lemma fetchPictureData_app (date : string) (w : World) :
  app (fst (fetchPictureData config network date w)) = app w.
Proof.
  unfold fetchPictureData, try_catch, bind, fetch, throw, console_error, read_json, ret.
  destruct (network (buildApiUrl config date)) as [e | response]; [done |].
  destruct (ok response); cbn [negb]; [| done].
  by destruct (json response).
Qed.

(** [fetchPictureData] is the request followed by what [fetched] does with
    its outcome. *)
Lemma fetchPictureData_split (date : string) (w : World) :
  fetchPictureData config network date w
  = fetched config (network (buildApiUrl config date))
      (fst (issue (buildApiUrl config date) w)).
Proof.
  unfold fetchPictureData, fetched, try_catch, bind, fetch, issue, throw, ret.
  cbn [fst]. by destruct (network (buildApiUrl config date)).
Qed.

(** [loadPicture] is [begin] followed, when a request is in flight, by
    [resume] on the outcome of that request. *)
Lemma loadPicture_split (date : string) (w : World) :
  fst (loadPicture config network subscribers date w)
  = match begin config subscribers date w with
    | (w1, inr true) =>
        fst (resume config subscribers date (network (buildApiUrl config date)) w1)
    | (w1, _) => w1
    end.
Proof.
  unfold loadPicture, begin, resume, try_catch, bind, setState, ret.
  destruct (subscribers (merge (app w) loading_patch)) as [e0 |].
  - by destruct (subscribers (merge _ (failed_patch e0))).
  - by rewrite fetchPictureData_split.
Qed.

(** In the event loop, the turn that resumes [loadPicture] after a failed
    request merges [loading] and [error] only. *)
Lemma resume_failed_frame (date : string) (outcome : FetchOutcome) (w : World) (e : Error) :
  snd (fetched config outcome w) = inl e →
  app (fst (resume config subscribers date outcome w)) = merge (app w) (failed_patch e).
Proof.
  unfold resume, fetched, try_catch, bind, setState, throw, console_error, read_json, ret.
  destruct outcome as [e' | response].
  - cbn. by intros [= ->].
  - destruct (ok response); cbn [negb].
    + destruct (json response); cbn; [by intros [= ->] | discriminate].
    + cbn. by intros [= ->].
Qed.

(** Starting a call leaves [currentPicture] and [selectedDate] as they are. *)
Lemma start_frame (date : string) (ui : UI) :
  currentPicture (app (world (start config subscribers date ui)))
  = currentPicture (app (world ui))
  ∧ selectedDate (app (world (start config subscribers date ui)))
    = selectedDate (app (world ui)).
Proof.
  unfold start, begin, try_catch, bind, setState, issue, ret.
  destruct (subscribers (merge (app (world ui)) loading_patch)) as [e |]; [| done].
  by destruct (subscribers (merge _ (failed_patch e))).
Qed.

(** C10, amended. When the fetch of a waiting [loadPicture] call fails with
    error [e], the state after the failure is handled has [loading = false]
    and the message of [e] as [error], while [currentPicture] and
    [selectedDate] are the ones of the moment the failure is handled
    ([setState] merges the supplied fields only); they are the ones from
    before the call when the failure is handled right after the call was
    started. *)
Theorem C10_failed_load_frame
    (ui ui' : UI) (i : nat) (date : string) (outcome : FetchOutcome) (e : Error) :
  pending ui !! i = Some date →
  snd (fetched config outcome (world ui)) = inl e →
  step config subscribers ui (Settle i outcome) = Some ui' →
  app (world ui')
  = {| loading := false; error := Some (message e);
       currentPicture := currentPicture (app (world ui));
       selectedDate := selectedDate (app (world ui)) |}
  ∧ ∀ ui0, ui = start config subscribers date ui0 →
           currentPicture (app (world ui')) = currentPicture (app (world ui0))
           ∧ selectedDate (app (world ui')) = selectedDate (app (world ui0)).
Proof.
  intros Hi Hfail. cbn [step]. rewrite Hi. intros [= <-]. cbn [world].
  rewrite (resume_failed_frame date outcome (world ui) e Hfail).
  split; [reflexivity |].
  intros ui0 ->. cbn [merge failed_patch default set_currentPicture set_selectedDate
                      currentPicture selectedDate].
  apply start_frame.
Qed.

End AppProperties.

(** C10, as it is stated, fails when another call settles while the failing
    one waits: the initial load of the 15th is still waiting when the today
    button starts a call for the 16th; that call succeeds, then the initial
    load fails, and [currentPicture] and [selectedDate] are no longer the
    ones from before the failing call. *)
Lemma C10_counterexample :
  let before := {| loading := false; error := None; currentPicture := None;
                   selectedDate := "2024-01-15" |} in
  let ui0 := {| world := {| app := before; requests := []; console := [] |};
                dateInput := "2024-01-15"; pending := [] |} in
  ∃ ui,
    run nasa silent (start nasa silent "2024-01-15" ui0)
      [TodayClick "2024-01-16"; Settle 1 found; Settle 0 (offline "")] = Some ui
    ∧ pending ui = []
    ∧ loading (app (world ui)) = false
    ∧ error (app (world ui)) = Some "Failed to fetch"
    ∧ currentPicture (app (world ui)) ≠ currentPicture before
    ∧ selectedDate (app (world ui)) = "2024-01-16"
    ∧ selectedDate (app (world ui)) ≠ selectedDate before.
Proof.
  intros before ui0. eexists. split; [vm_compute; reflexivity |].
  split_and!; try reflexivity; cbn; discriminate.
Qed.

Lemma C10_witness :
  ∃ ui', step nasa silent two_waiting (Settle 1 (offline "")) = Some ui'
    ∧ app (world ui')
      = {| loading := false; error := Some "Failed to fetch";
           currentPicture := None; selectedDate := "2024-01-15" |}.
Proof.
  eexists. split; [reflexivity |].
  apply (C10_failed_load_frame nasa silent two_waiting _ 1 "2024-01-16" (offline "")
           {| message := "Failed to fetch" |}); reflexivity.
Defined.

(** ** The event loop *)

Section EventLoop.

Variable config : Config.
Variable subscribers : State → option Error.

Lemma start_pending (date : string) (ui : UI) :
  pending (start config subscribers date ui) = pending ui ∨
  pending (start config subscribers date ui) = (pending ui ++ [date])%list.
Proof.
  unfold start.
  destruct (begin config subscribers date (world ui)) as [w [e | [|]]]; auto.
Qed.

Lemma start_length (date : string) (ui : UI) :
  (List.length (pending (start config subscribers date ui)) ≤ S (List.length (pending ui)))%nat.
Proof.
  destruct (start_pending date ui) as [-> | ->]; [lia |].
  rewrite length_app. cbn. lia.
Qed.

(** One turn of the event loop adds at most one request in flight. *)
Lemma step_length (ui ui' : UI) (ev : Event) :
  step config subscribers ui ev = Some ui' →
  (List.length (pending ui') ≤ S (List.length (pending ui)))%nat.
Proof.
  destruct ev as [| | today | value | today | i outcome]; cbn [step];
    unfold handleFetchClick, handleTodayClick.
  - intros [= <-]. case_bool_decide; [apply start_length | lia].
  - intros [= <-]. case_bool_decide; [apply start_length | lia].
  - intros [= <-].
    exact (start_length today
             {| world := world ui; dateInput := today; pending := pending ui |}).
  - intros [= <-]. cbn. lia.
  - intros [= <-]. cbn. lia.
  - destruct (pending ui !! i) as [date |] eqn:Hi; [| discriminate].
    intros [= <-]. cbn [pending]. rewrite length_delete by eauto. lia.
Qed.

(** Events that do not call [loadPicture] add no request in flight. *)
Lemma step_quiet (ui ui' : UI) (ev : Event) :
  triggers ev = false →
  step config subscribers ui ev = Some ui' →
  (List.length (pending ui') ≤ List.length (pending ui))%nat.
Proof.
  destruct ev as [| | today | value | today | i outcome]; cbn [triggers step];
    try discriminate; intros _.
  - by intros [= <-].
  - by intros [= <-].
  - destruct (pending ui !! i) as [date |] eqn:Hi; [| discriminate].
    intros [= <-]. cbn [pending]. rewrite length_delete by eauto. lia.
Qed.

Lemma serial_at_most_one (evs : list Event) :
  ∀ ui ui', (List.length (pending ui) ≤ 1)%nat →
            serial config subscribers ui evs → run config subscribers ui evs = Some ui' →
            (List.length (pending ui') ≤ 1)%nat.
Proof.
  induction evs as [| ev evs IH]; intros ui ui' Hlen Hser Hrun.
  - cbn in Hrun. by injection Hrun as <-.
  - cbn [run serial] in Hrun, Hser. destruct Hser as [Hidle Hser].
    destruct (step config subscribers ui ev) as [ui1 |] eqn:Hstep; [| discriminate].
    apply (IH ui1 ui'); [| done | done].
    destruct (triggers ev) eqn:Htr.
    + pose proof (step_length _ _ _ Hstep) as Hle.
      rewrite (Hidle eq_refl) in Hle. exact Hle.
    + pose proof (step_quiet _ _ _ Htr Hstep). lia.
Qed.

Lemma boot_pending (today : string) :
  (List.length (pending (boot config subscribers today)) ≤ 1)%nat.
Proof. unfold boot. apply start_length. Qed.

(** Nothing holds a call back: when the first [setState] renders, the call
    waits for its response, whatever is waiting already. *)
Lemma start_starts (date : string) (ui : UI) :
  subscribers (merge (app (world ui)) loading_patch) = None →
  pending (start config subscribers date ui) = (pending ui ++ [date])%list.
Proof.
  intros Hquiet. unfold start, begin, try_catch, bind, setState, issue, ret.
  by rewrite Hquiet.
Qed.

(** What one turn of the event loop does to the waiting calls. *)
Lemma step_pending (ui ui' : UI) (ev : Event) :
  step config subscribers ui ev = Some ui' →
  (∃ i outcome, ev = Settle i outcome ∧ is_Some (pending ui !! i)
                ∧ pending ui' = delete i (pending ui))
  ∨ pending ui' = pending ui
  ∨ (∃ date, triggers ev = true ∧ pending ui' = (pending ui ++ [date])%list).
Proof.
  destruct ev as [| | today | value | today | i outcome]; cbn [step triggers];
    unfold handleFetchClick, handleTodayClick.
  - intros [= <-]. case_bool_decide; [| by right; left].
    destruct (start_pending (dateInput ui) ui) as [-> | ->]; [by right; left |].
    right; right. by eexists.
  - intros [= <-]. case_bool_decide; [| by right; left].
    destruct (start_pending (dateInput ui) ui) as [-> | ->]; [by right; left |].
    right; right. by eexists.
  - intros [= <-].
    destruct (start_pending today
                {| world := world ui; dateInput := today; pending := pending ui |})
      as [-> | ->]; [by right; left |].
    right; right. by eexists.
  - intros [= <-]. by right; left.
  - intros [= <-]. by right; left.
  - destruct (pending ui !! i) as [date |] eqn:Hi; [| discriminate].
    intros [= <-]. left. exists i, outcome. rewrite Hi. by split_and!.
Qed.

(** C7, amended. At most one fetch is outstanding in every execution in which
    no load-triggering action (fetch button, Enter key, today button) is
    taken while a fetch is outstanding.  The UI has no guard: in every state,
    also while fetches are outstanding, the today button, and the fetch
    button or the Enter key with a non-empty date input, start one further
    call whenever the first [setState] renders without an exception, so such
    actions taken while a fetch is outstanding produce concurrently pending
    calls.  One turn of the event loop adds at most one outstanding call, and
    only the settling of a call removes one, that call. *)
Theorem C7_serial_at_most_one_outstanding
    (today : string) (evs : list Event) (ui' : UI) :
  serial config subscribers (boot config subscribers today) evs →
  run config subscribers (boot config subscribers today) evs = Some ui' →
  (List.length (pending ui') ≤ 1)%nat
  ∧ (∀ ui ev ui'', step config subscribers ui ev = Some ui'' →
       (∃ i outcome, ev = Settle i outcome ∧ is_Some (pending ui !! i)
                     ∧ pending ui'' = delete i (pending ui))
       ∨ pending ui'' = pending ui
       ∨ (∃ date, triggers ev = true ∧ pending ui'' = (pending ui ++ [date])%list))
  ∧ (∀ ui ev, ev = FetchClick ∨ ev = EnterKey →
       dateInput ui ≠ "" →
       subscribers (merge (app (world ui)) loading_patch) = None →
       ∃ ui'', step config subscribers ui ev = Some ui''
               ∧ pending ui'' = (pending ui ++ [dateInput ui])%list)
  ∧ (∀ ui date,
       subscribers (merge (app (world ui)) loading_patch) = None →
       ∃ ui'', step config subscribers ui (TodayClick date) = Some ui''
               ∧ pending ui'' = (pending ui ++ [date])%list).
Proof.
  intros Hser Hrun. split_and!.
  - exact (serial_at_most_one evs _ _ (boot_pending today) Hser Hrun).
  - intros ui ev ui''. apply step_pending.
  - intros ui ev Hev Hdate Hquiet.
    exists (start config subscribers (dateInput ui) ui). split.
    + destruct Hev as [-> | ->]; cbn [step]; unfold handleFetchClick;
        by rewrite bool_decide_eq_true_2.
    + by apply start_starts.
  - intros ui date Hquiet. eexists. split; [reflexivity |].
    unfold handleTodayClick.
    by rewrite (start_starts date
                  {| world := world ui; dateInput := date; pending := pending ui |}).
Qed.

End EventLoop.

(** C7, as the specification states it, fails: a click on the fetch button
    while the initial load is still waiting for its response starts a second
    call of [fetchPictureData], and two requests are in flight. *)
Lemma C7_counterexample :
  ∃ ui,
    run nasa silent (boot nasa silent "2024-01-15") [FetchClick] = Some ui ∧
    pending ui = ["2024-01-15"; "2024-01-15"] ∧
    requests (world ui)
    = ["https://api.nasa.gov/planetary/apod?date=2024-01-15&api_key=DEMO_KEY";
       "https://api.nasa.gov/planetary/apod?date=2024-01-15&api_key=DEMO_KEY"] ∧
    ¬ (List.length (pending ui) ≤ 1)%nat.
Proof.
  eexists. split; [vm_compute; reflexivity |].
  split_and!; [reflexivity | reflexivity |]. cbn. lia.
Qed.

Lemma C7_witness :
  ∃ ui,
    run nasa silent (boot nasa silent "2024-01-15") [Settle 0 found; FetchClick] = Some ui ∧
    (List.length (pending ui) ≤ 1)%nat.
Proof.
  eexists. split; [vm_compute; reflexivity |].
  refine (proj1 (C7_serial_at_most_one_outstanding nasa silent "2024-01-15"
                   [Settle 0 found; FetchClick] _ _ _)).
  - vm_compute. split_and!; (discriminate || done).
  - vm_compute. reflexivity.
Defined.

(** * Further properties of the code *)

(** ** [validateApiResponse] and the normalized record *)

Lemma missing_nil (response : gmap string value) (fields : list string) :
  filter (λ field, truthy (get response field) = false) fields = []
  ↔ ∀ f, f ∈ fields → truthy (get response f) = true.
Proof.
  split.
  - intros Hnil f Hf. destruct (truthy (get response f)) eqn:Ht; [done |].
    by destruct (filter_nil_not_elem_of _ _ f Hnil Ht).
  - intros Hall. induction fields as [| f fields IH]; [done |].
    rewrite filter_cons_False.
    + apply IH. intros g Hg. apply Hall. by right.
    + rewrite (Hall f) by left. discriminate.
Qed.

Lemma validate_true_iff (response : gmap string value) (requiredFields : list string) :
  validateApiResponse response requiredFields = inr true
  ↔ ∀ f, f ∈ requiredFields → truthy (get response f) = true.
Proof.
  unfold validateApiResponse. rewrite <- missing_nil.
  by destruct (filter _ requiredFields).
Qed.

(** X1. [validateApiResponse] returns [true] exactly when every required field
    of the response is truthy, it never returns [false], and when it throws,
    the message lists the falsy required fields in the order they were
    required. *)
Theorem validateApiResponse_accepts_iff
    (response : gmap string value) (requiredFields : list string) :
  (validateApiResponse response requiredFields = inr true
   ↔ ∀ f, f ∈ requiredFields → truthy (get response f) = true)
  ∧ validateApiResponse response requiredFields ≠ inr false
  ∧ ∀ e, validateApiResponse response requiredFields = inl e →
         message e = "Invalid API response: missing fields "
                     +:+ join ", " (filter (λ field, truthy (get response field) = false)
                                      requiredFields).
Proof.
  unfold validateApiResponse. rewrite <- missing_nil.
  destruct (filter _ requiredFields) as [| f missing]; cbn [List.length Nat.ltb Nat.leb].
  - split_and!; [done | done | discriminate].
  - split_and!; [split; discriminate | discriminate | by intros e [= <-]].
Qed.

Lemma get_title (mapping : ResponseMapping) (data : gmap string value) :
  get (normalize mapping data) "title"
  = get data (property_key (m_title mapping)) ||| get data "title".
Proof. exact (get_normalize mapping data Title). Qed.

Lemma get_url (mapping : ResponseMapping) (data : gmap string value) :
  get (normalize mapping data) "url"
  = get data (property_key (m_url mapping)) ||| get data "url".
Proof. exact (get_normalize mapping data PictureUrl). Qed.

Lemma truthy_or_else_iff (a b : value) :
  truthy (a ||| b) = true ↔ truthy a = true ∨ truthy b = true.
Proof.
  unfold or_else. destruct (truthy a) eqn:Ha.
  - rewrite Ha. by split; [left |].
  - split; [by right | by intros [? | ?]].
Qed.

(** X2. The record that [transformResponse] builds with a [responseMapping]
    passes [validateApiResponse] exactly when the raw response has a truthy
    value under the mapped or the same-named key, for [title] and for [url]. *)
Theorem normalized_record_valid_iff
    (config : Config) (mapping : ResponseMapping) (data : gmap string value) :
  responseMapping config = Some mapping →
  (validateApiResponse (transformResponse config data) requiredFields_default = inr true
   ↔ (truthy (get data (property_key (m_title mapping))) = true
      ∨ truthy (get data "title") = true)
     ∧ (truthy (get data (property_key (m_url mapping))) = true
        ∨ truthy (get data "url") = true)).
Proof.
  unfold transformResponse. intros ->.
  rewrite validate_true_iff.
  unfold requiredFields_default.
  rewrite <- !truthy_or_else_iff, <- get_title, <- get_url. split.
  - intros H. split; apply H; set_solver.
  - intros [Ht Hu] f Hf.
    apply elem_of_cons in Hf as [-> | Hf]; [done |].
    apply elem_of_cons in Hf as [-> | Hf]; [done |].
    by apply elem_of_nil in Hf.
Qed.

Lemma normalized_record_valid_witness :
  let data : gmap string value :=
    {[ "picture_title" := VStr "M31"; "url" := VStr "https://example.org/m31.jpg" ]} in
  validateApiResponse (transformResponse custom data) requiredFields_default = inr true.
Proof.
  apply (normalized_record_valid_iff custom custom_mapping); [reflexivity |].
  vm_compute. by split; [left | right].
Defined.

Lemma normalize_owns (mapping : ResponseMapping) (data : gmap string value) (k : string) :
  is_Some (normalize mapping data !! k) ↔ k ∈ names.
Proof.
  unfold normalize, names.
  rewrite !lookup_insert_is_Some', lookup_singleton_is_Some.
  rewrite !elem_of_cons, elem_of_nil. intuition congruence.
Qed.

(** X3. With a [responseMapping], the normalized record owns the seven internal
    names and nothing else: upstream fields outside the mapping never pass
    through. *)
Theorem normalized_record_fields
    (config : Config) (mapping : ResponseMapping) (data : gmap string value)
    (k : string) :
  responseMapping config = Some mapping →
  is_Some (transformResponse config data !! k) ↔ k ∈ names.
Proof. unfold transformResponse. intros ->. apply normalize_owns. Qed.

Lemma normalized_record_fields_witness :
  let data : gmap string value :=
    {[ "title" := VStr "M31"; "service_version" := VStr "v1" ]} in
  transformResponse nasa data !! "service_version" = None ∧
  is_Some (transformResponse nasa data !! "title").
Proof.
  intros data. split.
  - apply eq_None_not_Some.
    rewrite (normalized_record_fields nasa nasa_mapping data "service_version" eq_refl).
    vm_compute. intros H.
    repeat (apply elem_of_cons in H as [H | H]; [discriminate H |]).
    by apply elem_of_nil in H.
  - apply (normalized_record_fields nasa nasa_mapping data "title" eq_refl).
    by left.
Defined.

Ltac read_field mapping data f :=
  let G := fresh "G" in
  pose proof (get_normalize mapping data f) as G; cbn [name mapped] in G.

(** X4. Normalizing twice is normalizing once, for every mapping whose upstream
    names are the internal names themselves (the [nasa] profile) or are
    neither one of the seven internal names nor a name inherited from
    [Object.prototype] (the [custom] profile). *)
Theorem normalize_idempotent (mapping : ResponseMapping) (data : gmap string value) :
  (∀ f, property_key (mapped mapping f) = name f
        ∨ ((property_key (mapped mapping f) ∉ names)
           ∧ (property_key (mapped mapping f) ∉ object_prototype))) →
  normalize mapping (normalize mapping data) = normalize mapping data.
Proof.
  intros Hkeys. set (n := normalize mapping data).
  assert (Hf : ∀ f, get n (property_key (mapped mapping f)) ||| get n (name f)
                    = get n (name f)).
  { intros f. destruct (Hkeys f) as [-> | [Hout Hni]].
    - unfold or_else. by destruct (truthy _).
    - rewrite (get_absent n), or_else_falsy; [done | done | | done].
      apply eq_None_not_Some. intros Hin. by apply Hout, (normalize_owns mapping data). }
  pose proof (Hf Title) as H1. pose proof (Hf Date) as H2.
  pose proof (Hf Explanation) as H3. pose proof (Hf PictureUrl) as H4.
  pose proof (Hf Hdurl) as H5. pose proof (Hf MediaType) as H6.
  pose proof (Hf Copyright) as H7. cbn [mapped name] in *.
  unfold normalize at 1. rewrite H1, H2, H3, H4, H5, H6, H7.
  rewrite (or_else_truthy (get n "media_type")) by apply media_type_truthy.
  subst n.
  read_field mapping data Title. read_field mapping data Date.
  read_field mapping data Explanation. read_field mapping data PictureUrl.
  read_field mapping data Hdurl. read_field mapping data MediaType.
  read_field mapping data Copyright.
  rewrite G, G0, G1, G2, G3, G4, G5. reflexivity.
Qed.

Lemma normalize_idempotent_witness :
  let data : gmap string value :=
    {[ "picture_title" := VStr "M31"; "title" := VStr "Andromeda"; "type" := VStr "" ]} in
  normalize custom_mapping (normalize custom_mapping data) = normalize custom_mapping data.
Proof.
  apply normalize_idempotent. intros f. right.
  split; vm_compute; intros H;
    destruct f;
    repeat (apply elem_of_cons in H as [H | H]; [discriminate H |]);
    by apply elem_of_nil in H.
Defined.

(** ** The query string of [buildApiUrl] *)

Lemma all_chars_app (P : ascii → bool) (s t : string) :
  all_chars P (s +:+ t) = all_chars P s && all_chars P t.
Proof.
  induction s as [| c s IH]; [done |].
  change (P c && all_chars P (s +:+ t) = P c && all_chars P s && all_chars P t).
  by rewrite IH, andb_assoc.
Qed.

Lemma encode_byte_safe (c : ascii) : all_chars query_safe (Url.encode_byte c) = true.
Proof. destruct c as [[] [] [] [] [] [] [] []]; reflexivity. Qed.

Lemma urlencode_safe (s : string) : all_chars query_safe (Url.urlencode s) = true.
Proof.
  induction s as [| c s IH]; [done |].
  cbn [Url.urlencode]. by rewrite all_chars_app, encode_byte_safe, IH.
Qed.

(** X5. Whatever the parameter names and values are, the query string that
    [URLSearchParams] serializes consists of letters, digits and the
    characters [* - . _ + % = &] only. *)
Theorem serialize_safe (params : list (string * string)) :
  all_chars (λ c, query_safe c || Ascii.eqb c "=" || Ascii.eqb c "&")
    (Url.serialize params) = true.
Proof.
  assert (Hweak : ∀ s, all_chars query_safe s = true →
            all_chars (λ c, query_safe c || Ascii.eqb c "=" || Ascii.eqb c "&") s = true).
  { induction s as [| c s IH]; [done |]. cbn [all_chars].
    intros [Hc Hs]%andb_true_iff. by rewrite Hc, IH. }
  induction params as [| [n v] params IH]; [done |].
  cbn [Url.serialize]. destruct params as [| p params].
  - rewrite !all_chars_app.
    rewrite (Hweak (Url.urlencode n)), (Hweak (Url.urlencode v)) by apply urlencode_safe.
    reflexivity.
  - rewrite !all_chars_app, IH.
    rewrite (Hweak (Url.urlencode n)), (Hweak (Url.urlencode v)) by apply urlencode_safe.
    reflexivity.
Qed.

Lemma urldecode_encode_byte (c : ascii) (rest : string) :
  urldecode (Url.encode_byte c +:+ rest) = String c <$> urldecode rest.
Proof. destruct c as [[] [] [] [] [] [] [] []]; reflexivity. Qed.

Lemma urldecode_urlencode (s : string) : urldecode (Url.urlencode s) = Some s.
Proof.
  induction s as [| c s IH]; [done |].
  cbn [Url.urlencode]. by rewrite urldecode_encode_byte, IH.
Qed.

(** X6. The encoding of a parameter name or value loses nothing: decoding [+] as
    a space and [%XY] as a byte gives the string back, so two different
    strings never have the same encoding. *)
Theorem urlencode_injective :
  (∀ s, urldecode (Url.urlencode s) = Some s)
  ∧ (∀ s t, Url.urlencode s = Url.urlencode t → s = t).
Proof.
  split; [apply urldecode_urlencode |].
  intros s t Heq. apply (f_equal urldecode) in Heq.
  rewrite !urldecode_urlencode in Heq. by injection Heq.
Qed.

Lemma urlencode_unreserved (s : string) :
  all_chars Url.unreserved s = true → Url.urlencode s = s.
Proof.
  induction s as [| c s IH]; [done |].
  cbn [all_chars Url.urlencode]. intros [Hc Hs]%andb_true_iff.
  unfold Url.encode_byte. rewrite Hc, (IH Hs). reflexivity.
Qed.

(** X7. When the two parameter names are different, [apiKeyParam] is not an array
    index, and names, date and key consist of letters, digits and [* - . _]
    (as a date [YYYY-MM-DD] does), the URL is the plain concatenation
    [baseUrl?dateParam=date&apiKeyParam=apiKey]. *)
Theorem buildApiUrl_plain (config : Config) (date : string) :
  dateParam config ≠ apiKeyParam config →
  Obj.array_index (apiKeyParam config) = None →
  all_chars Url.unreserved (dateParam config) = true →
  all_chars Url.unreserved (apiKeyParam config) = true →
  all_chars Url.unreserved date = true →
  all_chars Url.unreserved (apiKey config) = true →
  buildApiUrl config date
  = baseUrl config +:+ "?" +:+ dateParam config +:+ "=" +:+ date +:+ "&"
    +:+ apiKeyParam config +:+ "=" +:+ apiKey config.
Proof.
  intros Hne Hidx Hdp Hakp Hdate Hkey. unfold buildApiUrl.
  rewrite query_params_distinct by done. unfold second_first. rewrite Hidx.
  replace (match Obj.array_index (dateParam config) with
           | Some _ | _ => false end) with false
    by (by destruct (Obj.array_index (dateParam config))).
  cbn [Url.serialize]. by rewrite !urlencode_unreserved.
Qed.

Lemma buildApiUrl_plain_witness :
  buildApiUrl custom "2024-01-15"
  = "https://your-api.com/astronomy" +:+ "?" +:+ "date" +:+ "=" +:+ "2024-01-15"
    +:+ "&" +:+ "key" +:+ "=" +:+ "your-api-key-here".
Proof.
  apply (buildApiUrl_plain custom "2024-01-15"); (discriminate || reflexivity).
Defined.

(** X8. When [apiKeyParam] is an array index and [dateParam] is not, the API key
    is the first parameter of the query and the date the second. *)
Theorem buildApiUrl_index_first (config : Config) (date : string) (n : N) :
  Obj.array_index (apiKeyParam config) = Some n →
  Obj.array_index (dateParam config) = None →
  buildApiUrl config date
  = baseUrl config +:+ "?" +:+ Url.urlencode (apiKeyParam config) +:+ "="
    +:+ Url.urlencode (apiKey config) +:+ "&" +:+ Url.urlencode (dateParam config)
    +:+ "=" +:+ Url.urlencode date.
Proof.
  intros Hakp Hdp. unfold buildApiUrl.
  rewrite query_params_distinct by congruence.
  unfold second_first. by rewrite Hakp, Hdp.
Qed.

Lemma buildApiUrl_index_first_witness :
  buildApiUrl numbered "2024-01-15"
  = "https://your-api.com/astronomy?1=SECRET&date=2024-01-15".
Proof.
  exact (buildApiUrl_index_first numbered "2024-01-15" 1%N eq_refl eq_refl).
Defined.

(** ** Outcomes of [fetchPictureData] and [loadPicture] *)

Section Outcomes.

Variable config : Config.
Variable network : string → FetchOutcome.
Variable subscribers : State → option Error.

Lemma fetchPictureData_console (date : string) (w : World) :
  console (fst (fetchPictureData config network date w))
  = match snd (fetchPictureData config network date w) with
    | inl e => (console w ++ ["API Service Error: " +:+ message e])%list
    | inr _ => console w
    end.
Proof.
  unfold fetchPictureData, try_catch, bind, fetch, throw, console_error, read_json, ret.
  destruct (network (buildApiUrl config date)) as [e | response]; [done |].
  destruct (ok response); cbn [negb]; [| done].
  by destruct (json response).
Qed.

(** X9. [fetchPictureData] passes on the error of the transport or of the JSON
    parser as it is, replaces a non-success response by the error of
    [handleApiError], and otherwise returns the transformed body; it writes
    one line to [console.error] exactly when it rejects, and that line carries
    the message of the error it rejects with. *)
Theorem fetchPictureData_outcome (date : string) (w : World) :
  snd (fetchPictureData config network date w)
  = match network (buildApiUrl config date) with
    | Rejected e => inl e
    | Fulfilled response =>
        if ok response then
          match json response with
          | inl e => inl e
          | inr data => inr (transformResponse config data)
          end
        else inl (handleApiError response)
    end
  ∧ console (fst (fetchPictureData config network date w))
    = match snd (fetchPictureData config network date w) with
      | inl e => (console w ++ ["API Service Error: " +:+ message e])%list
      | inr _ => console w
      end.
Proof.
  unfold fetchPictureData, try_catch, bind, fetch, throw, console_error, read_json, ret.
  destruct (network (buildApiUrl config date)) as [e | response]; [done |].
  destruct (ok response); cbn [negb]; [| done].
  by destruct (json response).
Qed.

Lemma fetchPictureData_requests (date : string) (w : World) :
  requests (fst (fetchPictureData config network date w))
  = (requests w ++ [buildApiUrl config date])%list.
Proof.
  unfold fetchPictureData, try_catch, bind, fetch, throw, console_error, read_json, ret.
  destruct (network (buildApiUrl config date)) as [e | response]; [done |].
  destruct (ok response); cbn [negb]; [| done].
  by destruct (json response).
Qed.

Lemma loadPicture_fetched (date : string) (w : World) (data : gmap string value) :
  snd (fetchPictureData config network date w) = inr data →
  subscribers (merge (app w) loading_patch) = None →
  loadPicture config network subscribers date w
  = try_catch (setState subscribers (loaded_patch data date))
      (λ error, setState subscribers (failed_patch error))
      (fst (fetchPictureData config network date
              (with_app w (merge (app w) loading_patch)))).
Proof.
  intros Hdata Hquiet.
  pose proof (fetchPictureData_result config network date
                (with_app w (merge (app w) loading_patch)) w) as Hres.
  rewrite Hdata in Hres.
  unfold loadPicture, try_catch, bind. unfold setState at 1. rewrite Hquiet.
  destruct (fetchPictureData config network date
              (with_app w (merge (app w) loading_patch))) as [w2 [e | data']];
    cbn [fst snd] in *; [discriminate Hres |].
  by injection Hres as ->.
Qed.


(** X11. When the fetch succeeds but a subscriber throws while rendering the new
    record, [loadPicture] ends in its [catch] block: the state keeps the new
    record and the new date, and reports the message of the rendering error
    as [error]. *)
Theorem loadPicture_render_error
    (date : string) (w : World) (data : gmap string value) (e : Error) :
  snd (fetchPictureData config network date w) = inr data →
  subscribers (merge (app w) loading_patch) = None →
  subscribers (loaded_state data date) = Some e →
  app (fst (loadPicture config network subscribers date w))
  = {| loading := false; error := Some (message e); currentPicture := Some data;
       selectedDate := date |}.
Proof.
  intros Hdata Hquiet Hthrow.
  rewrite (loadPicture_fetched date w data Hdata Hquiet).
  pose proof (fetchPictureData_app config network date
                (with_app w (merge (app w) loading_patch))) as Happ.
  destruct (fetchPictureData config network date
              (with_app w (merge (app w) loading_patch))) as [w2 r].
  cbn [fst snd] in *. unfold try_catch. unfold setState at 1.
  assert (Hst : merge (app w2) (loaded_patch data date) = loaded_state data date).
  { rewrite Happ. reflexivity. }
  rewrite Hst, Hthrow. reflexivity.
Qed.

End Outcomes.

(** ** [MediaComponent.createMediaElement] *)

Lemma prefix_iff (s t : string) :
  String.prefix s t = true ↔ ∃ post, t = s +:+ post.
Proof.
  revert s. induction t as [| b t IH]; intros [| a s]; simpl.
  - split; [intros _; by exists "" | reflexivity].
  - split; [discriminate | intros [post Hpost]; discriminate Hpost].
  - split; [intros _; by exists (String b t) | reflexivity].
  - destruct (ascii_dec a b) as [-> | Hne].
    + rewrite IH. split; intros [post Hpost]; exists post.
      * by rewrite Hpost.
      * change (String b t = String b (s +:+ post)) in Hpost. by injection Hpost.
    + split; [discriminate |]. intros [post Hpost].
      change (String b t = String a (s +:+ post)) in Hpost. congruence.
Qed.

Lemma includesb_spec (s t : string) : includesb s t = true ↔ includes s t.
Proof.
  unfold includes. induction t as [| c t IH]; cbn [includesb].
  - rewrite orb_false_r, prefix_iff. split.
    + intros [post Hpost]. by exists "", post.
    + intros (pre & post & Hpp). destruct pre as [| c' pre]; [by exists post |].
      discriminate Hpp.
  - rewrite orb_true_iff, prefix_iff, IH. split.
    + intros [[post Hpost] | (pre & post & Hpp)].
      * by exists "", post.
      * exists (String c pre), post.
        change (String c t = String c (pre +:+ s +:+ post)). by rewrite Hpp.
    + intros (pre & post & Hpp). destruct pre as [| c' pre].
      * left. by exists post.
      * right. exists pre, post.
        change (String c t = String c' (pre +:+ s +:+ post)) in Hpp.
        by injection Hpp.
Qed.

Lemma same_string_spec (needle : string) (v : value) :
  same_string needle v = true ↔ v = VStr needle.
Proof.
  destruct v; cbn; try (split; [discriminate | discriminate]).
  rewrite String.eqb_eq. split; congruence.
Qed.

Lemma isVideo_none_iff (data : gmap string value) :
  isVideo data = None
  ↔ get data "media_type" ≠ VStr "video"
    ∧ (∀ s, get data "url" ≠ VStr s) ∧ (∀ l, get data "url" ≠ VArr l).
Proof.
  unfold isVideo.
  destruct (same_string "video" (get data "media_type")) eqn:Hv.
  - apply same_string_spec in Hv. split; [discriminate | by intros [Hne _]].
  - assert (Hne : get data "media_type" ≠ VStr "video").
    { intros Heq%same_string_spec. congruence. }
    destruct (get data "url") as [| | b | x | s | l | o | m]; cbn [call_includes];
      try (split; [intros _; split_and!; [done | discriminate | discriminate] | done]).
    + split; [by destruct (includesb _ s) | intros (_ & Hs & _); by destruct (Hs s)].
    + split; [by destruct (existsb _ l) | intros (_ & _ & Hl); by destruct (Hl l)].
Qed.

(** X12. The choice between video and image throws exactly when [media_type] is
    not ['video'] and [url] is neither a string nor an array: a record
    without a usable [url] cannot be rendered unless it is marked as a
    video. *)
Theorem isVideo_throws_iff (data : gmap string value) :
  isVideo data = None
  ↔ get data "media_type" ≠ VStr "video"
    ∧ (∀ s, get data "url" ≠ VStr s) ∧ (∀ l, get data "url" ≠ VArr l).
Proof. apply isVideo_none_iff. Qed.

(** X13. For a record whose [url] is a string, the media element is a video
    exactly when [media_type] is ['video'] or the URL contains [youtube.com]
    or [vimeo.com], and the choice never throws. *)
Theorem isVideo_string_url (data : gmap string value) (s : string) :
  get data "url" = VStr s →
  (isVideo data = Some true
   ↔ get data "media_type" = VStr "video"
     ∨ includes "youtube.com" s ∨ includes "vimeo.com" s)
  ∧ isVideo data ≠ None.
Proof.
  intros Hurl. unfold isVideo. rewrite Hurl. cbn [call_includes].
  rewrite <- !includesb_spec, <- same_string_spec.
  destruct (same_string "video" (get data "media_type")),
    (includesb "youtube.com" s), (includesb "vimeo.com" s);
    split; try discriminate; intuition congruence.
Qed.

Lemma isVideo_string_url_witness :
  let data : gmap string value :=
    {[ "media_type" := VStr "image";
       "url" := VStr "https://www.youtube.com/embed/abc" ]} in
  isVideo data = Some true.
Proof.
  intros data.
  apply (isVideo_string_url data "https://www.youtube.com/embed/abc" eq_refl).
  right. left. apply includesb_spec. reflexivity.
Defined.

Section RenderingProperties.

Variable type_error : value → Error.
Variable later : State → option Error.

(** X14. A response that has neither the mapped [url] key (a name that is
    not inherited from [Object.prototype]) nor [url] normalizes to a record
    that [MediaComponent.render] cannot display: unless its [media_type] is
    ['video'], rendering it throws the [TypeError] of [undefined.includes]. *)
Theorem missing_url_breaks_render
    (config : Config) (mapping : ResponseMapping) (data : gmap string value)
    (state : State) :
  responseMapping config = Some mapping →
  data !! property_key (m_url mapping) = None →
  property_key (m_url mapping) ∉ object_prototype →
  data !! "url" = None →
  get (transformResponse config data) "media_type" ≠ VStr "video" →
  currentPicture state = Some (transformResponse config data) →
  notifySubscribers type_error later state = Some (type_error VUndefined).
Proof.
  intros Hmap Hk Hni Hu Hmt Hpic.
  unfold notifySubscribers, MediaComponent_render. rewrite Hpic.
  assert (Hurl : get (transformResponse config data) "url" = VUndefined).
  { unfold transformResponse. rewrite Hmap, get_url.
    by rewrite (get_absent _ _ Hk Hni),
         (get_absent _ _ Hu (name_not_inherited PictureUrl)). }
  rewrite Hurl.
  assert (Hthrows : isVideo (transformResponse config data) = None).
  { apply isVideo_none_iff. rewrite Hurl. by split_and!. }
  by rewrite Hthrows.
Qed.

End RenderingProperties.

(** ** Invariants of the event loop *)

Section EventLoopInvariants.

Variable config : Config.
Variable subscribers : State → option Error.

Lemma begin_spec (date : string) (w : World) :
  let r := begin config subscribers date w in
  (snd r = inr true
   ∧ requests (fst r) = (requests w ++ [buildApiUrl config date])%list
   ∧ loading (app (fst r)) = true)
  ∨ (snd r ≠ inr true
     ∧ requests (fst r) = requests w
     ∧ loading (app (fst r)) = false).
Proof.
  unfold begin, try_catch, bind, setState, issue, ret. cbn zeta.
  destruct (subscribers (merge (app w) loading_patch)) as [e |].
  - right. destruct (subscribers (merge _ (failed_patch e))); by split_and!.
  - left. by split_and!.
Qed.

Lemma resume_spec (date : string) (outcome : FetchOutcome) (w : World) :
  requests (fst (resume config subscribers date outcome w)) = requests w
  ∧ loading (app (fst (resume config subscribers date outcome w))) = false.
Proof.
  unfold resume, fetched, try_catch, bind, setState, throw, console_error, read_json, ret.
  destruct outcome as [e | response]; [done |].
  destruct (ok response); cbn [negb]; [| done].
  destruct (json response) as [e | data]; [done |].
  cbn. by destruct (subscribers _).
Qed.

Lemma start_spec (date : string) (ui : UI) :
  let ui' := start config subscribers date ui in
  (pending ui' = (pending ui ++ [date])%list
   ∧ requests (world ui') = (requests (world ui) ++ [buildApiUrl config date])%list
   ∧ loading (app (world ui')) = true)
  ∨ (pending ui' = pending ui
     ∧ requests (world ui') = requests (world ui)
     ∧ loading (app (world ui')) = false).
Proof.
  cbn zeta. unfold start.
  pose proof (begin_spec date (world ui)) as Hb. cbn zeta in Hb.
  destruct (begin config subscribers date (world ui)) as [w [e | [|]]];
    cbn [fst snd] in Hb; destruct Hb as [(Hr & Hreq & Hl) | (Hr & Hreq & Hl)];
    try done; try discriminate Hr; cbn [pending world]; first [by left | by right].
Qed.

Lemma step_accounting (ui ui' : UI) (ev : Event) :
  step config subscribers ui ev = Some ui' →
  (List.length (requests (world ui')) + List.length (pending ui)
   = List.length (requests (world ui)) + List.length (pending ui') + settles [ev])%nat.
Proof.
  assert (Hstart : ∀ date u,
    (List.length (requests (world (start config subscribers date u)))
     + List.length (pending u)
     = List.length (requests (world u))
       + List.length (pending (start config subscribers date u)))%nat).
  { intros date u. destruct (start_spec date u) as [(-> & -> & _) | (-> & -> & _)];
      rewrite ?length_app; cbn; lia. }
  destruct ev as [| | today | value | today | i outcome]; cbn [step settles];
    unfold handleFetchClick, handleTodayClick.
  - intros [= <-]. case_bool_decide; [rewrite Hstart |]; lia.
  - intros [= <-]. case_bool_decide; [rewrite Hstart |]; lia.
  - intros [= <-].
    pose proof (Hstart today
      {| world := world ui; dateInput := today; pending := pending ui |}) as H.
    cbn [world pending] in H. lia.
  - intros [= <-]. cbn. lia.
  - intros [= <-]. cbn. lia.
  - destruct (pending ui !! i) as [date |] eqn:Hi; [| discriminate].
    intros [= <-]. cbn [world pending].
    rewrite (proj1 (resume_spec date outcome (world ui))).
    rewrite length_delete by eauto.
    apply lookup_lt_Some in Hi. lia.
Qed.

Lemma run_accounting (evs : list Event) :
  ∀ ui ui', run config subscribers ui evs = Some ui' →
  (List.length (requests (world ui')) + List.length (pending ui)
   = List.length (requests (world ui)) + List.length (pending ui') + settles evs)%nat.
Proof.
  induction evs as [| ev evs IH]; intros ui ui' Hrun; cbn [run] in Hrun.
  - injection Hrun as <-. cbn. lia.
  - destruct (step config subscribers ui ev) as [ui1 |] eqn:Hstep; [| discriminate].
    pose proof (step_accounting _ _ _ Hstep) as H1.
    pose proof (IH _ _ Hrun) as H2.
    assert (settles (ev :: evs) = settles [ev] + settles evs)%nat as ->
      by (by destruct ev).
    lia.
Qed.

(** X15. In every execution of the UI, overlapping or not, each request that was
    sent is either still waiting or has settled once: the number of requests
    equals the number of waiting calls plus the number of settled ones. *)
Theorem requests_accounting (today : string) (evs : list Event) (ui' : UI) :
  run config subscribers (boot config subscribers today) evs = Some ui' →
  List.length (requests (world ui'))
  = (List.length (pending ui') + settles evs)%nat.
Proof.
  intros Hrun. pose proof (run_accounting evs _ _ Hrun) as H.
  unfold boot in H.
  destruct (start_spec today
    {| world := {| app := {| loading := false; error := None;
                             currentPicture := None; selectedDate := today |};
                   requests := []; console := [] |};
       dateInput := today; pending := [] |}) as [(Hp & Hr & _) | (Hp & Hr & _)];
    rewrite Hp, Hr in H; cbn in H; lia.
Qed.

Lemma start_spinner (date : string) (ui : UI) :
  pending ui = [] → spinner_ok (start config subscribers date ui).
Proof.
  intros Hidle. unfold spinner_ok.
  destruct (start_spec date ui) as [(-> & _ & ->) | (-> & _ & ->)]; rewrite Hidle.
  - cbn. split; [lia | done].
  - cbn. split; [lia | done].
Qed.

Lemma step_spinner (ui ui' : UI) (ev : Event) :
  spinner_ok ui →
  (triggers ev = true → pending ui = []) →
  step config subscribers ui ev = Some ui' →
  spinner_ok ui'.
Proof.
  intros Hok Hidle.
  destruct ev as [| | today | value | today | i outcome]; cbn [step triggers] in *;
    unfold handleFetchClick, handleTodayClick.
  - intros [= <-]. case_bool_decide; [by apply start_spinner; auto | done].
  - intros [= <-]. case_bool_decide; [by apply start_spinner; auto | done].
  - intros [= <-]. apply start_spinner. cbn. auto.
  - by intros [= <-].
  - by intros [= <-].
  - destruct (pending ui !! i) as [date |] eqn:Hi; [| discriminate].
    intros [= <-]. destruct Hok as [Hlen _]. unfold spinner_ok. cbn [world pending].
    rewrite (proj2 (resume_spec date outcome (world ui))).
    destruct (pending ui) as [| d [| d' l]]; cbn in Hlen; [done | | lia].
    destruct i; [cbn | done]. split; [lia | done].
Qed.

(** X16. In every execution in which no action is taken while a call is waiting,
    [loading] is [true] exactly while a call is waiting: the loading
    indicator never stays on after the last response and never goes off
    before it. *)
Theorem serial_loading_iff_pending (today : string) (evs : list Event) (ui' : UI) :
  serial config subscribers (boot config subscribers today) evs →
  run config subscribers (boot config subscribers today) evs = Some ui' →
  loading (app (world ui')) = true ↔ pending ui' ≠ [].
Proof.
  assert (Hgen : ∀ evs ui, spinner_ok ui → serial config subscribers ui evs →
                           run config subscribers ui evs = Some ui' → spinner_ok ui').
  { clear evs. induction evs as [| ev evs IH]; intros ui Hok Hser Hrun;
      cbn [run serial] in *.
    - by injection Hrun as <-.
    - destruct Hser as [Hidle Hser].
      destruct (step config subscribers ui ev) as [ui1 |] eqn:Hstep; [| discriminate].
      apply (IH ui1); [by apply (step_spinner ui ui1 ev) | done | done]. }
  intros Hser Hrun. refine (proj2 (Hgen evs _ _ Hser Hrun)).
  unfold boot. by apply start_spinner.
Qed.

(** X17. With an empty date input, the fetch button and the Enter key do nothing:
    no state change, no request, nothing waiting. *)
Theorem handleFetchClick_empty_input (ui : UI) :
  dateInput ui = "" →
  step config subscribers ui FetchClick = Some ui
  ∧ step config subscribers ui EnterKey = Some ui.
Proof.
  intros Hempty. cbn [step]. unfold handleFetchClick. rewrite Hempty.
  by rewrite bool_decide_eq_false_2 by (intros H; by apply H).
Qed.

End EventLoopInvariants.

(** ** [ErrorComponent], the demo sample and the configuration *)

(** X18. After a response with status 429 the error panel is shown with the demo
    button; the messages for 403, 404 and 500 are shown without adding the
    button. *)
Theorem rate_limit_offers_demo (response : Response) (state : State) (panel : ErrorPanel) :
  error state = Some (message (handleApiError response)) →
  (status response = 429%N →
   panel_visible (ErrorComponent_render state panel) = true
   ∧ retry_button (ErrorComponent_render state panel) = true)
  ∧ (status response ∈ [403; 404; 500]%N →
     panel_visible (ErrorComponent_render state panel) = true
     ∧ retry_button (ErrorComponent_render state panel) = retry_button panel).
Proof.
  intros Herr. unfold ErrorComponent_render. rewrite Herr, handleApiError_message.
  split.
  - intros ->. destruct panel as [visible html []]; vm_compute; by split.
  - intros Hs. repeat (apply elem_of_cons in Hs as [-> | Hs]);
      [| | | by apply elem_of_nil in Hs];
      destruct panel as [visible html []]; vm_compute; by split.
Qed.

(** X19. The demo sample is a valid picture for every date: it passes
    [validateApiResponse], it is displayed as an image without an exception,
    and normalizing it with the default mapping leaves it unchanged. *)
Theorem demo_sample_valid (today : string) :
  validateApiResponse (createDemoSample today) requiredFields_default = inr true
  ∧ isVideo (createDemoSample today) = Some false
  ∧ transformResponse nasa (createDemoSample today) = createDemoSample today.
Proof.
  split_and!.
  - vm_compute. reflexivity.
  - vm_compute. reflexivity.
  - unfold transformResponse, nasa, normalize, createDemoSample, get. cbn [responseMapping].
    cbn [nasa_mapping m_title m_date m_explanation m_url m_hdurl m_mediaType
         m_copyright property_key default].
    simplify_map_eq. unfold or_else. cbn [truthy].
    by destruct today.
Qed.

(** X20. [loadApiConfig] uses the built-in default configuration whenever
    config.js did not define [API_CONFIGS] or [ACTIVE_API], or the active
    name is not a profile of [API_CONFIGS]. *)
Theorem loadApiConfig_fallback
    (API_CONFIGS : option (gmap string Profile)) (ACTIVE_API : option string) :
  (API_CONFIGS = None ∨ ACTIVE_API = None
   ∨ ∃ configs active, API_CONFIGS = Some configs ∧ ACTIVE_API = Some active
                       ∧ configs !! active = None) →
  loadApiConfig API_CONFIGS ACTIVE_API = defaultConfig.
Proof.
  intros [-> | [-> | (configs & active & -> & -> & Hnone)]]; unfold loadApiConfig.
  - done.
  - by destruct API_CONFIGS.
  - by rewrite Hnone.
Qed.

Lemma loadApiConfig_fallback_witness :
  loadApiConfig (Some shipped_configs) (Some "esa") = nasa.
Proof.
  apply loadApiConfig_fallback. right. right.
  exists shipped_configs, "esa". by split_and!.
Defined.

(** X21. A profile replaces the default field by field and as a whole when it is
    complete: a complete active profile is the configuration of the app, and
    a profile that only supplies [apiKey] keeps the default URL, parameter
    names and response mapping. *)
Theorem loadApiConfig_profile
    (configs : gmap string Profile) (active : string) (profile : Profile) :
  configs !! active = Some profile →
  (∀ config, profile = profile_of config →
             loadApiConfig (Some configs) (Some active) = config)
  ∧ (∀ key, profile = {| p_baseUrl := None; p_apiKey := Some key;
                         p_dateParam := None; p_apiKeyParam := None;
                         p_responseMapping := None |} →
            loadApiConfig (Some configs) (Some active)
            = {| baseUrl := baseUrl defaultConfig; apiKey := key;
                 dateParam := dateParam defaultConfig;
                 apiKeyParam := apiKeyParam defaultConfig;
                 responseMapping := responseMapping defaultConfig |}).
Proof.
  intros Hp. unfold loadApiConfig. rewrite Hp. split.
  - intros [] ->. reflexivity.
  - intros key ->. reflexivity.
Qed.

Lemma loadApiConfig_profile_witness :
  loadApiConfig (Some shipped_configs) (Some "custom") = custom.
Proof.
  apply (loadApiConfig_profile shipped_configs "custom" (profile_of custom));
    reflexivity.
Defined.

(** ** The properties at sample inputs *)


Lemma missing_url_breaks_render_witness :
  notifySubscribers engine_error silent
    (loaded_state (transformResponse nasa {[ "title" := VStr "M31" ]}) "2024-01-15")
  = Some (engine_error VUndefined).
Proof.
  apply (missing_url_breaks_render engine_error silent nasa nasa_mapping
           {[ "title" := VStr "M31" ]});
    [reflexivity | reflexivity | | reflexivity | vm_compute; discriminate | reflexivity].
  vm_compute. intros H.
  repeat (apply elem_of_cons in H as [H | H]; [discriminate H |]).
  by apply elem_of_nil in H.
Defined.

Lemma loadPicture_render_error_witness :
  app (fst (loadPicture nasa (λ _, no_url) (notifySubscribers engine_error silent)
              "2024-01-15" empty_world))
  = {| loading := false;
       error := Some "Cannot read properties of undefined (reading 'includes')";
       currentPicture := Some (transformResponse nasa {[ "title" := VStr "M31" ]});
       selectedDate := "2024-01-15" |}.
Proof.
  apply (loadPicture_render_error nasa (λ _, no_url) (notifySubscribers engine_error silent)
           "2024-01-15" empty_world
           (transformResponse nasa {[ "title" := VStr "M31" ]})
           (engine_error VUndefined)); reflexivity.
Defined.

Lemma requests_accounting_witness :
  ∃ ui,
    run nasa silent (boot nasa silent "2024-01-15")
      [FetchClick; Settle 1 found; TodayClick "2024-01-16"] = Some ui
    ∧ List.length (requests (world ui)) = (List.length (pending ui) + 1)%nat.
Proof.
  eexists. split; [vm_compute; reflexivity |].
  apply (requests_accounting nasa silent "2024-01-15"
           [FetchClick; Settle 1 found; TodayClick "2024-01-16"]).
  vm_compute. reflexivity.
Defined.

Lemma serial_loading_iff_pending_witness :
  ∃ ui,
    run nasa silent (boot nasa silent "2024-01-15") [Settle 0 found; FetchClick] = Some ui
    ∧ (loading (app (world ui)) = true ↔ pending ui ≠ []).
Proof.
  eexists. split; [vm_compute; reflexivity |].
  apply (serial_loading_iff_pending nasa silent "2024-01-15"
           [Settle 0 found; FetchClick]).
  - vm_compute. split_and!; (discriminate || done).
  - vm_compute. reflexivity.
Defined.

Lemma handleFetchClick_empty_input_witness :
  let ui := {| world := empty_world; dateInput := ""; pending := [] |} in
  step nasa silent ui FetchClick = Some ui ∧ step nasa silent ui EnterKey = Some ui.
Proof.
  intros ui. apply (handleFetchClick_empty_input nasa silent ui). reflexivity.
Defined.

Lemma rate_limit_offers_demo_witness :
  let state := {| loading := false; error := Some (message (handleApiError too_many));
                  currentPicture := None; selectedDate := "2024-01-15" |} in
  let panel := {| panel_visible := false; panel_html := ""; retry_button := false |} in
  panel_visible (ErrorComponent_render state panel) = true
  ∧ retry_button (ErrorComponent_render state panel) = true.
Proof.
  intros state panel.
  apply (rate_limit_offers_demo too_many state panel eq_refl). reflexivity.
Defined.

(** Overlapping calls break the agreement of [loading] with the requests in
    flight: after two clicks and one response the indicator is off while a
    request is still waiting. *)
Example overlapping_calls_hide_spinner :
  ∃ ui,
    run nasa silent (boot nasa silent "2024-01-15") [FetchClick; Settle 0 found] = Some ui
    ∧ loading (app (world ui)) = false
    ∧ pending ui = ["2024-01-15"].
Proof. eexists. split; [vm_compute; reflexivity |]. by split. Qed.

(** ** Responses that arrive while other calls are waiting *)

(** X23. Whenever a waiting call settles with a successful response that renders,
    its record and its date become [currentPicture] and [selectedDate],
    whichever calls were started after it, and [error] is left as it was: the
    response that arrives last wins, and it does not clear the error of
    another call. *)
Theorem late_response_wins
    (config : Config) (subscribers : State → option Error) (ui : UI) (i : nat)
    (date : string) (response : Response) (data : gmap string value) :
  pending ui !! i = Some date →
  ok response = true →
  json response = inr data →
  subscribers (merge (app (world ui))
                 (loaded_patch (transformResponse config data) date)) = None →
  ∃ ui', step config subscribers ui (Settle i (Fulfilled response)) = Some ui'
    ∧ pending ui' = delete i (pending ui)
    ∧ app (world ui')
      = {| loading := false; error := error (app (world ui));
           currentPicture := Some (transformResponse config data);
           selectedDate := date |}.
Proof.
  intros Hi Hok Hjson Hquiet. cbn [step]. rewrite Hi. eexists. split; [reflexivity |].
  split; [reflexivity |]. cbn [world].
  unfold resume, fetched, try_catch, bind, setState, throw, console_error, read_json, ret.
  rewrite Hok, Hjson. cbn [negb app with_app].
  cbn [app] in Hquiet. by rewrite Hquiet.
Qed.

(** X22. Whenever a waiting call settles with a failure, the state gets
    [loading = false] and the message of the failure as [error], and
    [currentPicture] and [selectedDate] stay as they were at that moment,
    whatever other calls did since the call started. *)
Theorem failed_settle_frame
    (config : Config) (subscribers : State → option Error) (ui : UI) (i : nat)
    (date : string) (outcome : FetchOutcome) (e : Error) :
  pending ui !! i = Some date →
  snd (fetched config outcome (world ui)) = inl e →
  ∃ ui', step config subscribers ui (Settle i outcome) = Some ui'
    ∧ pending ui' = delete i (pending ui)
    ∧ app (world ui')
      = {| loading := false; error := Some (message e);
           currentPicture := currentPicture (app (world ui));
           selectedDate := selectedDate (app (world ui)) |}.
Proof.
  intros Hi Hfail. cbn [step]. rewrite Hi. eexists. split; [reflexivity |].
  split; [reflexivity |]. cbn [world].
  by rewrite (resume_failed_frame config subscribers date outcome (world ui) e Hfail).
Qed.

Lemma failed_settle_frame_witness :
  ∃ ui', step nasa silent two_waiting (Settle 1 (offline "")) = Some ui'
    ∧ pending ui' = ["2024-01-15"]
    ∧ error (app (world ui')) = Some "Failed to fetch"
    ∧ selectedDate (app (world ui')) = "2024-01-15".
Proof.
  destruct (failed_settle_frame nasa silent two_waiting 1 "2024-01-16" (offline "")
              {| message := "Failed to fetch" |} eq_refl eq_refl)
    as (ui' & Hstep & Hp & Happ).
  exists ui'. split_and!; [exact Hstep | exact Hp | by rewrite Happ | by rewrite Happ].
Defined.

Lemma late_response_wins_witness :
  ∃ ui', step nasa silent two_waiting (Settle 0 found) = Some ui'
    ∧ pending ui' = ["2024-01-16"]
    ∧ selectedDate (app (world ui')) = "2024-01-15".
Proof.
  destruct (late_response_wins nasa silent two_waiting 0 "2024-01-15"
              {| status := 200; statusText := "OK";
                 json := inr {[ "title" := VStr "M31";
                                "url" := VStr "https://example.org/m31.jpg" ]} |}
              {[ "title" := VStr "M31"; "url" := VStr "https://example.org/m31.jpg" ]}
              eq_refl eq_refl eq_refl eq_refl) as (ui' & Hstep & Hp & Happ).
  exists ui'. split_and!; [exact Hstep | exact Hp | by rewrite Happ].
Defined.
